(** * spatialdata/_io/read.py: reading a SpatialData object from a zarr store

    A shallow embedding of [_read_multiscale], [_read_polygons],
    [_read_shapes], [_read_points] and [read_zarr], with Python exceptions
    as an error monad, Python dicts keyed by strings as [gmap string _] and
    the enumeration order of zarr groups as lists. *)

From Stdlib Require Import ZArith String List Lia.
From stdpp Require Import base option list gmap strings pretty.

Local Open Scope string_scope.
Set Warnings "-register-all".

(** ** Exceptions *)

Inductive exn :=
  | AssertionError (msg : string)
  | KeyError (key : string)
  | IndexError
  | AttributeError (attr : string)
  | TypeError
  | ValueError (msg : string)
  | PathNotFoundError (what : string).

Inductive result (A : Type) :=
  | Ok (a : A)
  | Raise (e : exn).
Arguments Ok {A} a.
Arguments Raise {A} e.

Global Instance result_ret : MRet result := λ A a, Ok a.
Global Instance result_bind : MBind result := λ A B f m,
  match m with
  | Ok a => f a
  | Raise e => Raise e
  end.

Definition raises {A} (m : result A) : Prop := ∃ e, m = Raise e.
Definition returns {A} (m : result A) : Prop := ∃ a, m = Ok a.

(** [d[key]] on a dict entry that may be absent. *)
Definition getitem {A} (key : string) (o : option A) : result A :=
  match o with
  | Some a => Ok a
  | None => Raise (KeyError key)
  end.

(** [l[i]] on a Python list. *)
Definition getindex {A} (l : list A) (i : nat) : result A :=
  match l !! i with
  | Some a => Ok a
  | None => Raise IndexError
  end.

(** [assert b, msg] *)
Definition assert (b : bool) (msg : string) : result unit :=
  if b then Ok tt else Raise (AssertionError msg).

(** ** ome_zarr nodes *)

(** The [Spec] classes of [ome_zarr.reader]; a [Multiscales] spec carries
    the paths of its resolution datasets. *)
Inductive Spec :=
  | Multiscales (datasets : list string)
  | Label
  | Labels
  | OMERO
  | Plate
  | Well.

Definition isinstance_Multiscales (s : Spec) : bool :=
  match s with Multiscales _ => true | _ => false end.
Definition isinstance_Label (s : Spec) : bool :=
  match s with Label => true | _ => false end.

Record Axis := { ax_name : string; ax_type : option string }.

(** Modelled from the spec: [SpatialDataFormat] (spatialdata/_io/format.py
    is not among the sources) is the "format version token" handed to the
    array loader; only its [version] is read. *)
Record SpatialDataFormat := { version : string }.

(** [shapely.GeometryType], an integer enumeration. *)
Inductive GeometryType :=
  | MISSING
  | POINT
  | LINESTRING
  | LINEARRING
  | POLYGON
  | MULTIPOINT
  | MULTILINESTRING
  | MULTIPOLYGON
  | GEOMETRYCOLLECTION.

(** [GeometryType(code)]: the member with that value, or [ValueError]. *)
Definition GeometryType_of_code (code : Z) : result GeometryType :=
  match code with
  | (-1)%Z => Ok MISSING
  | 0%Z => Ok POINT
  | 1%Z => Ok LINESTRING
  | 2%Z => Ok LINEARRING
  | 3%Z => Ok POLYGON
  | 4%Z => Ok MULTIPOINT
  | 5%Z => Ok MULTILINESTRING
  | 6%Z => Ok MULTIPOLYGON
  | 7%Z => Ok GEOMETRYCOLLECTION
  | _ => Raise (ValueError "not a valid GeometryType")
  end.

(** [typ.name] *)
Definition GeometryType_name (typ : GeometryType) : string :=
  match typ with
  | MISSING => "MISSING"
  | POINT => "POINT"
  | LINESTRING => "LINESTRING"
  | LINEARRING => "LINEARRING"
  | POLYGON => "POLYGON"
  | MULTIPOINT => "MULTIPOINT"
  | MULTILINESTRING => "MULTILINESTRING"
  | MULTIPOLYGON => "MULTIPOLYGON"
  | GEOMETRYCOLLECTION => "GEOMETRYCOLLECTION"
  end.

(** [typ.value] *)
Definition GeometryType_value (typ : GeometryType) : Z :=
  match typ with
  | MISSING => -1
  | POINT => 0
  | LINESTRING => 1
  | LINEARRING => 2
  | POLYGON => 3
  | MULTIPOINT => 4
  | MULTILINESTRING => 5
  | MULTIPOLYGON => 6
  | GEOMETRYCOLLECTION => 7
  end.

(** ** Python values held in [AnnData.uns] *)

Inductive scalar :=
  | SNone
  | SBool (b : bool)
  | SInt (z : Z)
  | SStr (s : string).

(** A [numpy.ndarray]: an item (a zero-dimensional array) or a sequence of
    sub-arrays along the first axis. *)
Inductive ndarray :=
  | NdItem (x : scalar)
  | NdAxis (items : list ndarray).

Inductive pyval :=
  | PyScalar (x : scalar)
  | PyList (items : list pyval)
  | PyNdarray (a : ndarray).

Abbreviation PyNone := (PyScalar SNone).

(** [a.tolist()]: nested Python lists of Python scalars. *)
Fixpoint tolist (a : ndarray) : pyval :=
  match a with
  | NdItem x => PyScalar x
  | NdAxis items => PyList (tolist <$> items)
  end.

(** [isinstance(v, np.ndarray)] *)
Definition isinstance_ndarray (v : pyval) : bool :=
  match v with PyNdarray _ => true | _ => false end.

(** A plain list all of whose items are scalars. *)
Definition list_of_scalars (v : pyval) : bool :=
  match v with
  | PyList items =>
      forallb (λ x, match x with PyScalar _ => true | _ => false end) items
  | _ => false
  end.

(** ** External collaborators

    The transformation decoder, the array loader of ome_zarr, the ragged
    array decoder of shapely and the constant [TableModel.ATTRS_KEY] live
    outside this module; the development is parametric in them. *)
Class Externals := {
  (** a transformation description (a JSON record) *)
  TransformDict : Type;
  (** a [BaseTransformation] *)
  Transformation : Type;
  (** array data of one resolution level *)
  Data : Type;
  (** the flat coordinate buffer of a polygons element *)
  Coords : Type;
  (** the geometries decoded from a ragged array *)
  Geometries : Type;
  (** the row data of an [AnnData] (X, obs, var, ...) *)
  Rows : Type;
  get_transformation_from_dict : TransformDict → result Transformation;
  (** [Multiscales.array]: the array at a resolution path below a zarr
      location, for a format version *)
  array : string → string → string → Data;
  (** [data.ndim]: the number of dimensions of an array *)
  ndim : Data → nat;
  (** [data.name]: the name that a dask array carries *)
  array_name : Data → string;
  from_ragged_array :
    GeometryType → Coords → list Z * list Z → result Geometries;
  (** [TableModel.ATTRS_KEY] *)
  ATTRS_KEY : string
}.

Section Read.
Context `{!Externals}.

(** [node.metadata] of a node with a [Multiscales] spec. That spec sets the
    entries "name" (possibly to [None]) and "axes" when it is created; it
    sets "coordinateTransformations" only when some dataset declares
    transformations, with one item per dataset: the list of the
    transformation descriptions of the dataset, or [None]. *)
Record Metadata := {
  md_coordinateTransformations :
    option (list (option (list TransformDict)));
  md_name : option string;
  md_axes : list Axis
}.

Record Node := {
  zarr : string;
  specs : list Spec;
  metadata : Metadata
}.

(** [node.load(Multiscales)]: the first spec that is a [Multiscales], or
    [None]; reading [.datasets] of [None] raises. *)
Fixpoint load_Multiscales (ss : list Spec) : option (list string) :=
  match ss with
  | [] => None
  | Multiscales ds :: _ => Some ds
  | _ :: ss => load_Multiscales ss
  end.

Definition load_Multiscales_datasets (node : Node) : result (list string) :=
  match load_Multiscales (specs node) with
  | Some ds => Ok ds
  | None => Raise (AttributeError "datasets")
  end.

(** ** Elements *)

Record DataArray := {
  da_data : Data;
  da_name : option string;
  da_dims : list string;
  da_attrs_transform : Transformation
}.

(** A [SpatialImage] is one labelled array; a [MultiscaleSpatialImage] is
    built from a dict of labelled arrays, kept here in insertion order. *)
Inductive Element :=
  | SpatialImage (a : DataArray)
  | MultiscaleSpatialImage (tree : list (string * DataArray)).

(** [t[0]] where [t] is a list or [None]. *)
Definition first_item {A} (t : option (list A)) : result A :=
  match t with
  | Some l => getindex l 0
  | None => Raise TypeError
  end.

(** [[get_transformation_from_dict(t[0]) for t in ...]] *)
Definition parse_transformations (cts : list (option (list TransformDict)))
  : result (list Transformation) :=
  mapM (λ t, d ← first_item t; get_transformation_from_dict d) cts.

Definition scale_key (i : nat) : string := "scale" +:+ pretty i.

(** [DataArray(data, name=name, dims=dims, attrs={"transform": t})] of
    xarray, which [SpatialImage] inherits: the constructor raises when the
    number of dimension names differs from the number of dimensions of the
    data, and a [name] that is [None] is replaced by the name of the
    data. *)
Definition DataArray_new (data : Data) (name : option string)
  (dims : list string) (t : Transformation) : result DataArray :=
  if bool_decide (length dims = ndim data) then
    Ok {| da_data := data;
          da_name := Some (default (array_name data) name);
          da_dims := dims;
          da_attrs_transform := t |}
  else Raise (ValueError "different number of dimensions on data and dims").

(** Lines 37-44: the loop that fills [multiscale_image], from the level of
    index [i] on. *)
Fixpoint read_levels (node : Node) (fmt : SpatialDataFormat)
  (name : option string) (axes : list string) (i : nat)
  (tds : list (Transformation * string)) : result (list (string * DataArray)) :=
  match tds with
  | [] => Ok []
  | (t, d) :: tds =>
      let data := array (zarr node) d (version fmt) in
      a ← DataArray_new data name axes t;
      rest ← read_levels node fmt name axes (S i) tds;
      Ok ((scale_key i, a) :: rest)
  end.

Definition _read_multiscale (node : Node) (fmt : SpatialDataFormat)
  : result Element :=
  datasets ← load_Multiscales_datasets node;
  cts ← getitem "coordinateTransformations"
        (md_coordinateTransformations (metadata node));
  transformations ← parse_transformations cts;
  let name := md_name (metadata node) in
  let axes := ax_name <$> md_axes (metadata node) in
  _ ← assert (bool_decide (length transformations = length datasets))
        "Expecting one transformation per dataset.";
  if bool_decide (1 < length datasets) then
    multiscale_image ←
      read_levels node fmt name axes 0 (zip transformations datasets);
    Ok (MultiscaleSpatialImage multiscale_image)
  else
    t ← getindex transformations 0;
    d ← getindex datasets 0;
    let data := array (zarr node) d (version fmt) in
    a ← DataArray_new data (md_name (metadata node)) axes t;
    Ok (SpatialImage a).

(** The array of the dataset [d] of a node has as many dimensions as the
    node has axes. *)
Definition dims_fit (node : Node) (fmt : SpatialDataFormat) (d : string)
  : Prop :=
  length (md_axes (metadata node)) = ndim (array (zarr node) d (version fmt)).

(** The number of resolution levels of an element. *)
Definition levels (e : Element) : nat :=
  match e with
  | SpatialImage _ => 1
  | MultiscaleSpatialImage tree => length tree
  end.

(** The labelled arrays of an element, finest first. *)
Definition element_arrays (e : Element) : list DataArray :=
  match e with
  | SpatialImage a => [a]
  | MultiscaleSpatialImage tree => tree.*2
  end.

(** ** zarr attributes of points, polygons and shapes groups *)

(** One entry of [multiscales[i]["datasets"]]; the key
    "coordinateTransformations" may be absent. *)
Record DatasetEntry := {
  de_coordinateTransformations : option (list TransformDict)
}.

(** One entry of [attrs["multiscales"]]. *)
Record MultiscaleEntry := { me_datasets : list DatasetEntry }.

(** [attrs["multiscales"][0]["datasets"][0]] followed by
    [get_transformation_from_dict(attrs["coordinateTransformations"][0])],
    the two lines shared by [_read_polygons], [_read_shapes] and
    [_read_points]. *)
Definition first_transformation (multiscales : option (list MultiscaleEntry))
  : result Transformation :=
  ms ← getitem "multiscales" multiscales;
  m0 ← getindex ms 0;
  attrs ← getindex (me_datasets m0) 0;
  cts ← getitem "coordinateTransformations"
        (de_coordinateTransformations attrs);
  t0 ← getindex cts 0;
  get_transformation_from_dict t0.

(** The helper nested in [read_zarr]; it is defined there and never
    called. *)
Definition _get_transform_from_group
  (multiscales : option (list MultiscaleEntry)) : result Transformation :=
  multiscales ← getitem "multiscales" multiscales;
  _ ← assert (bool_decide (length multiscales = 1))
        "TODO: expecting only one multiscale";
  m0 ← getindex multiscales 0;
  let datasets := me_datasets m0 in
  _ ← assert (bool_decide (length datasets = 1)) "Expecting only one dataset";
  d0 ← getindex datasets 0;
  coordinate_transformations ←
    getitem "coordinateTransformations" (de_coordinateTransformations d0);
  transformations ←
    mapM get_transformation_from_dict coordinate_transformations;
  _ ← assert (bool_decide (length transformations = 1))
        "Expecting only one transformation per multiscale";
  getindex transformations 0.

(** *** Polygons *)

(** [spatialdata_attrs["geos"]] *)
Record Geos := {
  geometry_type : option Z;
  geometry_name : option string
}.

Record PolygonsAttrs := {
  pa_spatialdata_attrs : option (option Geos);
  pa_multiscales : option (list MultiscaleEntry)
}.

(** The zarr group of a polygons element. The offsets array is given by its
    items along the first axis, each flattened. *)
Record PolygonsStore := {
  ps_coords : option Coords;
  ps_offsets : option (list (list Z));
  ps_attrs : PolygonsAttrs
}.

(** [tuple(x.flatten() for x in np.split(a, 2))]: [np.split] raises unless
    the first axis divides into two equal sections. *)
Definition split_offsets (a : list (list Z)) : result (list Z * list Z) :=
  if bool_decide (length a `mod` 2 = 0) then
    Ok (concat (take (length a `div` 2) a), concat (drop (length a `div` 2) a))
  else Raise (ValueError "array split does not result in an equal division").

(** A [GeoDataFrame]: its columns and its [attrs] dict. *)
Record GeoDataFrame := {
  gdf_columns : list (string * Geometries);
  gdf_attrs : gmap string Transformation
}.

Definition _read_polygons (f : PolygonsStore) : result GeoDataFrame :=
  coords ← getitem "coords" (ps_coords f);
  offsets_array ← getitem "offsets" (ps_offsets f);
  offsets ← split_offsets offsets_array;
  spatialdata_attrs ←
    getitem "spatialdata_attrs" (pa_spatialdata_attrs (ps_attrs f));
  geos ← getitem "geos" spatialdata_attrs;
  code ← getitem "geometry_type" (geometry_type geos);
  typ ← GeometryType_of_code code;
  name ← getitem "geometry_name" (geometry_name geos);
  _ ← assert (String.eqb (GeometryType_name typ) name) "";
  transforms ← first_transformation (pa_multiscales (ps_attrs f));
  geometry ← from_ragged_array typ coords offsets;
  Ok {| gdf_columns := [("geometry", geometry)];
        gdf_attrs := {["transform" := transforms]} |}.

(** *** Tables, shapes and points *)

(** A value of the [uns] dict of an [AnnData]. *)
Inductive unsval :=
  | UDict (d : gmap string pyval)
  | UVal (v : pyval)
  | UTransform (t : Transformation).

Record AnnData := {
  adata_rows : Rows;
  uns : gmap string unsval
}.

Definition set_uns (key : string) (v : unsval) (adata : AnnData) : AnnData :=
  {| adata_rows := adata_rows adata; uns := <[key := v]> (uns adata) |}.

(** The zarr group of a shapes or points element, with the outcome of
    [read_anndata_zarr] on it. *)
Record AnnDataStore := {
  as_multiscales : option (list MultiscaleEntry);
  as_spatialdata_attrs : option (gmap string pyval);
  as_anndata : result AnnData
}.

Definition _read_shapes (f : AnnDataStore) : result AnnData :=
  transforms ← first_transformation (as_multiscales f);
  spatialdata_attrs ← getitem "spatialdata_attrs" (as_spatialdata_attrs f);
  adata ← as_anndata f;
  let adata := set_uns "transform" (UTransform transforms) adata in
  let adata := set_uns "spatialdata_attrs" (UDict spatialdata_attrs) adata in
  Ok adata.

Definition _read_points (f : AnnDataStore) : result AnnData :=
  transforms ← first_transformation (as_multiscales f);
  adata ← as_anndata f;
  let adata := set_uns "transform" (UTransform transforms) adata in
  Ok adata.

(** [k in attrs] *)
Definition contains {V} (attrs : gmap string V) (k : string) : bool :=
  bool_decide (is_Some (attrs !! k)).

(** The three keys that [read_zarr] completes in the attributes of a
    table. *)
Definition table_keys : list string := ["region"; "region_key"; "instance_key"].

(** Lines 142-150 of [read_zarr], on the dict
    [attrs = table.uns[TableModel.ATTRS_KEY]]. *)
Definition fix_attrs (attrs : gmap string pyval) : gmap string pyval :=
  let attrs :=
    if negb (contains attrs "region")
    then <["region" := PyNone]> attrs else attrs in
  let attrs :=
    if negb (contains attrs "region_key")
    then <["region_key" := PyNone]> attrs else attrs in
  let attrs :=
    if negb (contains attrs "instance_key")
    then <["instance_key" := PyNone]> attrs else attrs in
  match attrs !! "region" with
  | Some (PyNdarray a) => <["region" := tolist a]> attrs
  | _ => attrs
  end.

(** Lines 139-150 of [read_zarr]. The dict is updated in place, so the
    table sees the new entries. A value under the key that is no dict
    raises on the first item access or assignment. *)
Definition fix_table (table : AnnData) : result AnnData :=
  match uns table !! ATTRS_KEY with
  | None => Ok table
  | Some (UDict attrs) => Ok (set_uns ATTRS_KEY (UDict (fix_attrs attrs)) table)
  | Some (UVal (PyNdarray _)) => Raise IndexError
  | Some _ => Raise TypeError
  end.

(** ** The store and [read_zarr] *)

(** A top-level group of the store: the nodes that the ome_zarr reader
    yields at the group and at its "labels" sub-path ([None] when
    [labels_loc.exists()] is false), the keys of the group, and what lies
    at the paths that [read_zarr] opens for them ([None] when
    [zarr.open] finds nothing there). *)
Record Group := {
  g_image_nodes : list Node;
  g_labels_nodes : option (list Node);
  g_keys : list string;
  g_points : option AnnDataStore;
  g_polygons : option PolygonsStore;
  g_shapes : option AnnDataStore;
  g_table : result AnnData
}.

(** The local variables that [read_zarr] accumulates. *)
Record Locals := {
  l_images : gmap string Element;
  l_labels : gmap string Element;
  l_points : gmap string AnnData;
  l_table : option AnnData;
  l_polygons : gmap string GeoDataFrame;
  l_shapes : gmap string AnnData
}.

Definition set_images (k : string) (e : Element) (st : Locals) : Locals :=
  {| l_images := <[k := e]> (l_images st); l_labels := l_labels st;
     l_points := l_points st; l_table := l_table st;
     l_polygons := l_polygons st; l_shapes := l_shapes st |}.
Definition set_labels (k : string) (e : Element) (st : Locals) : Locals :=
  {| l_images := l_images st; l_labels := <[k := e]> (l_labels st);
     l_points := l_points st; l_table := l_table st;
     l_polygons := l_polygons st; l_shapes := l_shapes st |}.
Definition set_points (k : string) (a : AnnData) (st : Locals) : Locals :=
  {| l_images := l_images st; l_labels := l_labels st;
     l_points := <[k := a]> (l_points st); l_table := l_table st;
     l_polygons := l_polygons st; l_shapes := l_shapes st |}.
Definition set_polygons (k : string) (p : GeoDataFrame) (st : Locals) : Locals :=
  {| l_images := l_images st; l_labels := l_labels st;
     l_points := l_points st; l_table := l_table st;
     l_polygons := <[k := p]> (l_polygons st); l_shapes := l_shapes st |}.
Definition set_shapes (k : string) (a : AnnData) (st : Locals) : Locals :=
  {| l_images := l_images st; l_labels := l_labels st;
     l_points := l_points st; l_table := l_table st;
     l_polygons := l_polygons st; l_shapes := <[k := a]> (l_shapes st) |}.
Definition set_table (t : AnnData) (st : Locals) : Locals :=
  {| l_images := l_images st; l_labels := l_labels st;
     l_points := l_points st; l_table := Some t;
     l_polygons := l_polygons st; l_shapes := l_shapes st |}.

(** A [for] loop whose body may raise. *)
Fixpoint for_each {A B} (body : A → B → result A) (a : A) (l : list B)
  : result A :=
  match l with
  | [] => Ok a
  | x :: l => a' ← body a x; for_each body a' l
  end.

(** [zarr.open(path, mode="r")] *)
Definition zarr_open {A} (what : string) (o : option A) : result A :=
  match o with
  | Some a => Ok a
  | None => Raise (PathNotFoundError what)
  end.

(** The capability markers that a node declares. *)
Definition declares_multiscales (node : Node) : Prop :=
  ∃ datasets, Multiscales datasets ∈ specs node.
Definition declares_label (node : Node) : Prop := Label ∈ specs node.

(** Lines 96-101: the body of the loop over [image_nodes]. *)
Definition read_image_node (k : string) (fmt : SpatialDataFormat)
  (st : Locals) (node : Node) : result Locals :=
  if existsb isinstance_Multiscales (specs node)
     && forallb (λ spec, negb (isinstance_Label spec)) (specs node)
  then e ← _read_multiscale node fmt; Ok (set_images k e st)
  else Ok st.

(** Lines 113-118: the body of the loop over [labels_nodes]. *)
Definition read_labels_node (k : string) (fmt : SpatialDataFormat)
  (st : Locals) (node : Node) : result Locals :=
  if existsb isinstance_Multiscales (specs node)
     && existsb isinstance_Label (specs node)
  then e ← _read_multiscale node fmt; Ok (set_labels k e st)
  else Ok st.

(** Lines 94-101 *)
Definition read_images (k : string) (fmt : SpatialDataFormat)
  (image_nodes : list Node) (st : Locals) : result Locals :=
  if bool_decide (length image_nodes ≠ 0)
  then for_each (read_image_node k fmt) st image_nodes
  else Ok st.

(** Lines 106-119 *)
Definition read_labels (k : string) (fmt : SpatialDataFormat)
  (labels_loc : option (list Node)) (st : Locals) : result Locals :=
  match labels_loc with
  | Some labels_nodes =>
      if bool_decide (length labels_nodes ≠ 0)
      then for_each (read_labels_node k fmt) st labels_nodes
      else Ok st
  | None => Ok st
  end.

(** Lines 124-150: the body of the loop over [g.keys()]; the name of the
    child [j] of the group is ["/" + j]. *)
Definition read_rest_key (k : string) (g : Group) (st : Locals) (j : string)
  : result Locals :=
  let g_elem := "/" +:+ j in
  st ← (if String.eqb g_elem "/points"
        then f ← zarr_open "points" (g_points g);
             a ← _read_points f; Ok (set_points k a st)
        else Ok st);
  st ← (if String.eqb g_elem "/polygons"
        then f ← zarr_open "polygons" (g_polygons g);
             p ← _read_polygons f; Ok (set_polygons k p st)
        else Ok st);
  st ← (if String.eqb g_elem "/shapes"
        then f ← zarr_open "shapes" (g_shapes g);
             a ← _read_shapes f; Ok (set_shapes k a st)
        else Ok st);
  if String.eqb g_elem "/table"
  then table ← g_table g;
       table ← fix_table table;
       Ok (set_table table st)
  else Ok st.

(** Lines 85-151: the body of the loop over [f.keys()]. *)
Definition read_group (fmt : SpatialDataFormat) (st : Locals)
  (kg : string * Group) : result Locals :=
  let '(k, g) := kg in
  st ← read_images k fmt (g_image_nodes g) st;
  st ← read_labels k fmt (g_labels_nodes g) st;
  for_each (read_rest_key k g) st (g_keys g).

(** Modelled from the spec: the constructor of [SpatialData]
    (spatialdata/_core/_spatialdata.py is not among the sources) is "pure
    aggregation" that "collects the five mappings and the optional table"
    and "constructs one CompositeDataset value", "purely structural". *)
Record SpatialData := {
  images : gmap string Element;
  labels : gmap string Element;
  points : gmap string AnnData;
  polygons : gmap string GeoDataFrame;
  shapes : gmap string AnnData;
  table : option AnnData
}.

Definition Locals_empty : Locals :=
  {| l_images := ∅; l_labels := ∅; l_points := ∅; l_table := None;
     l_polygons := ∅; l_shapes := ∅ |}.

(** The store: its top-level groups in the order of [f.keys()]. The format
    [fmt] is the [SpatialDataFormat()] that [read_zarr] creates. *)
Definition read_zarr (fmt : SpatialDataFormat) (store : list (string * Group))
  : result SpatialData :=
  st ← for_each (read_group fmt) Locals_empty store;
  Ok {| images := l_images st; labels := l_labels st;
        points := l_points st; polygons := l_polygons st;
        shapes := l_shapes st; table := l_table st |}.

(** What one part of a traversal adds to what was accumulated before it:
    in each mapping the later entry of a name replaces the earlier one, and
    a later table replaces an earlier one. *)
Definition Locals_merge (st later : Locals) : Locals :=
  {| l_images := l_images later ∪ l_images st;
     l_labels := l_labels later ∪ l_labels st;
     l_points := l_points later ∪ l_points st;
     l_table := l_table later ∪ l_table st;
     l_polygons := l_polygons later ∪ l_polygons st;
     l_shapes := l_shapes later ∪ l_shapes st |}.

Definition SpatialData_merge (sd later : SpatialData) : SpatialData :=
  {| images := images later ∪ images sd;
     labels := labels later ∪ labels sd;
     points := points later ∪ points sd;
     polygons := polygons later ∪ polygons sd;
     shapes := shapes later ∪ shapes sd;
     table := table later ∪ table sd |}.

(** A step of the traversal is additive when what it does to the
    accumulated state is to merge into it what it does to the empty
    state. *)
Definition additive (f : Locals → result Locals) : Prop :=
  ∀ st, f st = (later ← f Locals_empty; Ok (Locals_merge st later)).

(** Every entry of the accumulated state was read from the store: an
    image from a node of the group of that name that declares the
    multiscale marker and no label marker, a label from a node at the
    "labels" sub-path that declares both markers, points, polygons and
    shapes from the child of that key, and the table from a "table"
    child, with its attributes completed. *)
Definition from_store (fmt : SpatialDataFormat) (store : list (string * Group))
  (st : Locals) : Prop :=
  (∀ k e, l_images st !! k = Some e →
     ∃ g node, (k, g) ∈ store ∧ node ∈ g_image_nodes g ∧
               declares_multiscales node ∧ ¬ declares_label node ∧
               _read_multiscale node fmt = Ok e) ∧
  (∀ k e, l_labels st !! k = Some e →
     ∃ g nodes node, (k, g) ∈ store ∧ g_labels_nodes g = Some nodes ∧
               node ∈ nodes ∧
               declares_multiscales node ∧ declares_label node ∧
               _read_multiscale node fmt = Ok e) ∧
  (∀ k a, l_points st !! k = Some a →
     ∃ g f, (k, g) ∈ store ∧ "points" ∈ g_keys g ∧
            g_points g = Some f ∧ _read_points f = Ok a) ∧
  (∀ k p, l_polygons st !! k = Some p →
     ∃ g f, (k, g) ∈ store ∧ "polygons" ∈ g_keys g ∧
            g_polygons g = Some f ∧ _read_polygons f = Ok p) ∧
  (∀ k a, l_shapes st !! k = Some a →
     ∃ g f, (k, g) ∈ store ∧ "shapes" ∈ g_keys g ∧
            g_shapes g = Some f ∧ _read_shapes f = Ok a) ∧
  (∀ t', l_table st = Some t' →
     ∃ k g t, (k, g) ∈ store ∧ "table" ∈ g_keys g ∧
              g_table g = Ok t ∧ fix_table t = Ok t').

(** Two states with the same five mappings (the tables may differ). *)
Definition same_mappings (st st' : Locals) : Prop :=
  l_images st = l_images st' ∧ l_labels st = l_labels st' ∧
  l_points st = l_points st' ∧ l_polygons st = l_polygons st' ∧
  l_shapes st = l_shapes st'.

(** The keys of a group that [read_zarr] dispatches on. *)
Definition known_keys : list string :=
  ["points"; "polygons"; "shapes"; "table"].

End Read.

(** ** Concrete externals and stores, used to run the model *)

Section Demo.

(** Transformation descriptions are integers, a negative one is malformed;
    an array is given by its path and has three dimensions. *)
#[local] Instance demo_externals : Externals := {|
  TransformDict := Z;
  Transformation := Z;
  Data := string;
  Coords := list Z;
  Geometries := GeometryType * list Z * (list Z * list Z);
  Rows := nat;
  get_transformation_from_dict := λ d,
    if bool_decide (0 ≤ d)%Z then Ok d
    else Raise (ValueError "malformed transformation");
  array := λ loc resolution _, loc +:+ "/" +:+ resolution;
  ndim := λ _, 3;
  array_name := λ data, "from-zarr-" +:+ data;
  from_ragged_array := λ typ coords offsets, Ok (typ, coords, offsets);
  ATTRS_KEY := "spatialdata_attrs"
|}.

Definition demo_fmt : SpatialDataFormat := {| version := "0.1" |}.

Definition demo_axes : list Axis :=
  [ {| ax_name := "c"; ax_type := Some "channel" |};
    {| ax_name := "y"; ax_type := Some "space" |};
    {| ax_name := "x"; ax_type := Some "space" |} ].

(** A multiscale node with the given markers besides [Multiscales], the
    given dataset paths and transformation descriptions. *)
Definition demo_node (markers : list Spec) (datasets : list string)
  (cts : list (list Z)) : Node :=
  {| zarr := "store/sample";
     specs := Multiscales datasets :: markers;
     metadata := {| md_coordinateTransformations := Some (Some <$> cts);
                    md_name := Some "sample";
                    md_axes := demo_axes |} |}.

(** A multiscale node with two axes, one dataset and one transformation
    description; the array of the dataset has three dimensions. *)
Definition demo_node_yx : Node :=
  {| zarr := "store/sample";
     specs := [Multiscales ["0"]];
     metadata :=
       {| md_coordinateTransformations := Some [Some [1%Z]];
          md_name := Some "sample";
          md_axes := [ {| ax_name := "y"; ax_type := Some "space" |};
                       {| ax_name := "x"; ax_type := Some "space" |} ] |} |}.

(** A top-level group that is itself a label image: the reader yields its
    one node, which declares both markers, and the group has no "labels"
    sub-path. *)
Definition demo_group_label_at_top : Group :=
  {| g_image_nodes := [demo_node [Label] ["0"] [[1%Z]]];
     g_labels_nodes := None;
     g_keys := [];
     g_points := None;
     g_polygons := None;
     g_shapes := None;
     g_table := Raise (PathNotFoundError "table") |}.

(** A polygons group of geometry type 3 with the given redundant name and
    the given transformation descriptions of its only dataset. *)
Definition demo_multiscales (cts : list Z) : option (list MultiscaleEntry) :=
  Some [ {| me_datasets :=
              [ {| de_coordinateTransformations := Some cts |} ] |} ].

Definition demo_polygons (name : string) (cts : list Z) : PolygonsStore :=
  {| ps_coords := Some [0; 0; 0; 1; 1; 1; 0; 0]%Z;
     ps_offsets := Some [[0; 4]; [0; 1]]%Z;
     ps_attrs :=
       {| pa_spatialdata_attrs :=
            Some (Some {| geometry_type := Some 3%Z;
                          geometry_name := Some name |});
          pa_multiscales := demo_multiscales cts |} |}.

(** A group whose only child is a polygons element. *)
Definition demo_group_polygons (f : PolygonsStore) : Group :=
  {| g_image_nodes := [];
     g_labels_nodes := None;
     g_keys := ["polygons"];
     g_points := None;
     g_polygons := Some f;
     g_shapes := None;
     g_table := Raise (PathNotFoundError "table") |}.

(** A table with the given attribute group and one more metadata entry. *)
Definition demo_table (rows : nat) (attrs : gmap string pyval) : AnnData :=
  {| adata_rows := rows;
     uns := <["spatialdata_attrs" := UDict attrs]>
              {["title" := UVal (PyScalar (SStr "cells"))]} |}.

(** Attributes with "region_key" only. *)
Definition demo_attrs_partial : gmap string pyval :=
  {["region_key" := PyScalar (SStr "library")]}.

(** Attributes whose "region" is a one-dimensional array, next to a key
    that [read_zarr] does not know. *)
Definition demo_attrs_array : gmap string pyval :=
  <["region" := PyNdarray (NdAxis [NdItem (SStr "a"); NdItem (SStr "b")])]>
    {["note" := PyScalar (SInt 7)]}.

(** Attributes whose "region" is a two-dimensional array, of two rows and
    one column. *)
Definition demo_attrs_matrix : gmap string pyval :=
  {["region" := PyNdarray (NdAxis [NdAxis [NdItem (SStr "a")];
                                   NdAxis [NdItem (SStr "b")]])]}.

(** A group whose only child is a table. *)
Definition demo_group_table (t : AnnData) : Group :=
  {| g_image_nodes := [];
     g_labels_nodes := None;
     g_keys := ["table"];
     g_points := None;
     g_polygons := None;
     g_shapes := None;
     g_table := Ok t |}.

(** A group with a single-resolution image, polygons and a table, and no
    "labels" sub-path. *)
Definition demo_group_no_labels : Group :=
  {| g_image_nodes := [demo_node [] ["0"] [[1%Z]]];
     g_labels_nodes := None;
     g_keys := ["polygons"; "table"];
     g_points := None;
     g_polygons := Some (demo_polygons "POLYGON" [2%Z]);
     g_shapes := None;
     g_table := Ok (demo_table 3 demo_attrs_partial) |}.

(** A group whose only image node declares two datasets and one
    transformation. *)
Definition demo_group_bad_image : Group :=
  {| g_image_nodes := [demo_node [] ["0"; "1"] [[1%Z]]];
     g_labels_nodes := None;
     g_keys := [];
     g_points := None;
     g_polygons := None;
     g_shapes := None;
     g_table := Raise (PathNotFoundError "table") |}.

(** A group that lists "points" although nothing lies at the path that
    [read_zarr] opens for it. *)
Definition demo_group_missing_points : Group :=
  {| g_image_nodes := [];
     g_labels_nodes := None;
     g_keys := ["points"];
     g_points := None;
     g_polygons := None;
     g_shapes := None;
     g_table := Raise (PathNotFoundError "table") |}.

(** A shapes group whose stored table already has a "transform" entry. *)
Definition demo_shapes : AnnDataStore :=
  {| as_multiscales := demo_multiscales [4%Z];
     as_spatialdata_attrs := Some {["type" := PyScalar (SStr "shapes")]};
     as_anndata :=
       Ok {| adata_rows := 5;
             uns := <["transform" := UVal PyNone]>
                      {["title" := UVal (PyScalar (SStr "cells"))]} |} |}.

(** A store of two groups with distinct names. *)
Definition demo_store : list (string * Group) :=
  [("a", demo_group_no_labels);
   ("b", demo_group_polygons (demo_polygons "POLYGON" [1%Z]))].

End Demo.

(** * Properties *)

Section Properties.
Context `{!Externals}.

Lemma bind_Ok {A B} (m : result A) (f : A → result B) b :
  m ≫= f = Ok b ↔ ∃ a, m = Ok a ∧ f a = Ok b.
Proof.
  destruct m as [a|e]; simpl; split.
  - eauto.
  - by intros (a' & [= <-] & ?).
  - done.
  - by intros (? & ? & ?).
Qed.

Lemma bind_raises {A B} (m : result A) (f : A → result B) :
  raises m → raises (m ≫= f).
Proof. intros [e ->]. by exists e. Qed.

Lemma raises_not_Ok {A} (m : result A) a : raises m → m ≠ Ok a.
Proof. intros [e ->]. done. Qed.

Lemma result_cases {A} (m : result A) : returns m ∨ raises m.
Proof. destruct m; [left|right]; eexists; done. Qed.

(** Parsing keeps one transformation per entry. *)
Lemma parse_transformations_length cts ts :
  parse_transformations cts = Ok ts → length ts = length cts.
Proof.
  unfold parse_transformations. revert ts.
  induction cts as [|t cts IH]; intros ts; simpl.
  - by intros [= <-].
  - intros (y & _ & (k & Hk & [= <-])%bind_Ok)%bind_Ok.
    simpl. f_equal. by apply IH.
Qed.

(** The array constructor returns exactly when the dimension names fit
    the data. *)
Lemma DataArray_new_Ok data name dims t a :
  DataArray_new data name dims t = Ok a ↔
  length dims = ndim data ∧
  a = {| da_data := data;
         da_name := Some (default (array_name data) name);
         da_dims := dims;
         da_attrs_transform := t |}.
Proof.
  unfold DataArray_new. case_bool_decide as Hfit.
  - split; [by intros [= <-]|by intros [_ ->]].
  - split; [done|by intros [? _]].
Qed.

Lemma dims_fit_length node fmt d :
  dims_fit node fmt d ↔
  length (ax_name <$> md_axes (metadata node)) =
    ndim (array (zarr node) d (version fmt)).
Proof. unfold dims_fit. by rewrite length_fmap. Qed.

(** The loop over the levels returns exactly when every array fits the
    axes, and then holds one level per pair, keyed by its index. *)
Lemma read_levels_Ok node fmt i tds tree :
  read_levels node fmt (md_name (metadata node))
              (ax_name <$> md_axes (metadata node)) i tds = Ok tree ↔
  Forall (λ td, dims_fit node fmt td.2) tds ∧
  tree = imap (λ j '(t, d),
                 (scale_key (i + j),
                  {| da_data := array (zarr node) d (version fmt);
                     da_name :=
                       Some (default
                               (array_name (array (zarr node) d (version fmt)))
                               (md_name (metadata node)));
                     da_dims := ax_name <$> md_axes (metadata node);
                     da_attrs_transform := t |}))
              tds.
Proof.
  revert i tree. induction tds as [|[t d] tds IH]; intros i tree; simpl.
  - split; [intros [= <-]; by split|by intros [_ ->]].
  - rewrite Nat.add_0_r. split.
    + intros (a & [Hfit ->]%DataArray_new_Ok
                & (rest & [Hrest ->]%IH & [= <-])%bind_Ok)%bind_Ok.
      split; [constructor; [by apply dims_fit_length|done]|].
      f_equal. apply imap_ext. intros j [t' d'] _. simpl.
      by rewrite Nat.add_succ_r.
    + intros [[Hfit Hrest]%Forall_cons ->].
      apply dims_fit_length in Hfit. simpl in Hfit.
      unfold DataArray_new. rewrite bool_decide_eq_true_2 by done. simpl.
      rewrite (proj2 (IH (S i) _) (conj Hrest eq_refl)). simpl.
      do 2 f_equal. apply imap_ext. intros j [t' d'] _. simpl.
      by rewrite Nat.add_succ_r.
Qed.

Lemma Forall_zip_snd {A B} (P : B → Prop) (l : list A) (k : list B) :
  length l = length k → Forall (λ x, P x.2) (zip l k) ↔ Forall P k.
Proof.
  intros Hlen. rewrite <-(snd_zip l k) at 2 by lia.
  by rewrite Forall_fmap.
Qed.

(** The outcome of [_read_multiscale] once the datasets are loaded and the
    transformations are parsed. *)
Lemma read_multiscale_unfold node fmt datasets cts ts :
  load_Multiscales (specs node) = Some datasets →
  md_coordinateTransformations (metadata node) = Some cts →
  parse_transformations cts = Ok ts →
  _read_multiscale node fmt =
    (_ ← assert (bool_decide (length ts = length datasets))
           "Expecting one transformation per dataset.";
     if bool_decide (1 < length datasets) then
       multiscale_image ←
         read_levels node fmt (md_name (metadata node))
                     (ax_name <$> md_axes (metadata node)) 0
                     (zip ts datasets);
       Ok (MultiscaleSpatialImage multiscale_image)
     else
       t ← getindex ts 0;
       d ← getindex datasets 0;
       a ← DataArray_new (array (zarr node) d (version fmt))
             (md_name (metadata node))
             (ax_name <$> md_axes (metadata node)) t;
       Ok (SpatialImage a)).
Proof.
  intros Hds Hcts Hts. unfold _read_multiscale, load_Multiscales_datasets.
  rewrite Hds, Hcts. simpl. rewrite Hts. done.
Qed.

(** A call that returns has loaded the datasets and parsed as many
    transformations as there are datasets. *)
Lemma read_multiscale_Ok_inv node fmt e :
  _read_multiscale node fmt = Ok e →
  ∃ datasets cts ts,
    load_Multiscales (specs node) = Some datasets ∧
    md_coordinateTransformations (metadata node) = Some cts ∧
    parse_transformations cts = Ok ts ∧
    length ts = length datasets.
Proof.
  unfold _read_multiscale, load_Multiscales_datasets.
  destruct (load_Multiscales (specs node)) as [datasets|]; [|done].
  destruct (md_coordinateTransformations (metadata node)) as [cts|]; [|done].
  simpl. destruct (parse_transformations cts) as [ts|] eqn:Hts; [|done].
  simpl. destruct (decide (length ts = length datasets)) as [Hlen|Hlen].
  - intros _. by exists datasets, cts, ts.
  - rewrite (bool_decide_eq_false_2 (length ts = length datasets)) by done.
    done.
Qed.

(** One dataset whose array fits the axes gives a bare image. *)
Lemma read_multiscale_single node fmt cts t d :
  load_Multiscales (specs node) = Some [d] →
  md_coordinateTransformations (metadata node) = Some cts →
  parse_transformations cts = Ok [t] →
  dims_fit node fmt d →
  _read_multiscale node fmt =
    Ok (SpatialImage
          {| da_data := array (zarr node) d (version fmt);
             da_name :=
               Some (default (array_name (array (zarr node) d (version fmt)))
                             (md_name (metadata node)));
             da_dims := ax_name <$> md_axes (metadata node);
             da_attrs_transform := t |}).
Proof.
  intros Hds Hcts Hts Hfit%dims_fit_length.
  rewrite (read_multiscale_unfold _ _ _ _ _ Hds Hcts Hts). simpl.
  unfold DataArray_new. by rewrite bool_decide_eq_true_2.
Qed.

(** Several datasets whose arrays fit the axes give a pyramid. *)
Lemma read_multiscale_pyramid node fmt datasets cts ts :
  load_Multiscales (specs node) = Some datasets →
  md_coordinateTransformations (metadata node) = Some cts →
  parse_transformations cts = Ok ts →
  length ts = length datasets → 1 < length datasets →
  Forall (dims_fit node fmt) datasets →
  _read_multiscale node fmt =
    Ok (MultiscaleSpatialImage
          (imap (λ i '(t, d),
                   (scale_key i,
                    {| da_data := array (zarr node) d (version fmt);
                       da_name :=
                         Some (default
                                 (array_name
                                    (array (zarr node) d (version fmt)))
                                 (md_name (metadata node)));
                       da_dims := ax_name <$> md_axes (metadata node);
                       da_attrs_transform := t |}))
                (zip ts datasets))).
Proof.
  intros Hds Hcts Hts Hlen Hmany Hfit.
  rewrite (read_multiscale_unfold _ _ _ _ _ Hds Hcts Hts).
  rewrite (bool_decide_eq_true_2 (length ts = length datasets)) by done.
  simpl. rewrite (bool_decide_eq_true_2 (1 < length datasets)) by done.
  apply (Forall_zip_snd _ ts) in Hfit; [|done].
  by rewrite (proj2 (read_levels_Ok node fmt 0 _ _) (conj Hfit eq_refl)).
Qed.

(** What [_read_multiscale] returns, written out. *)
Lemma read_multiscale_Ok_cases node fmt e :
  _read_multiscale node fmt = Ok e →
  ∃ datasets cts ts,
    load_Multiscales (specs node) = Some datasets ∧
    md_coordinateTransformations (metadata node) = Some cts ∧
    parse_transformations cts = Ok ts ∧
    length ts = length datasets ∧
    Forall (dims_fit node fmt) datasets ∧
    ((∃ t d, ts = [t] ∧ datasets = [d] ∧
        e = SpatialImage
              {| da_data := array (zarr node) d (version fmt);
                 da_name :=
                   Some (default
                           (array_name (array (zarr node) d (version fmt)))
                           (md_name (metadata node)));
                 da_dims := ax_name <$> md_axes (metadata node);
                 da_attrs_transform := t |}) ∨
     (1 < length datasets ∧
        e = MultiscaleSpatialImage
              (imap (λ i '(t, d),
                       (scale_key i,
                        {| da_data := array (zarr node) d (version fmt);
                           da_name :=
                             Some (default
                                     (array_name
                                        (array (zarr node) d (version fmt)))
                                     (md_name (metadata node)));
                           da_dims := ax_name <$> md_axes (metadata node);
                           da_attrs_transform := t |}))
                    (zip ts datasets)))).
Proof.
  intros He.
  destruct (read_multiscale_Ok_inv _ _ _ He)
    as (datasets & cts & ts & Hds & Hcts & Hts & Hlen).
  exists datasets, cts, ts. repeat (split; [done|]).
  rewrite (read_multiscale_unfold _ _ _ _ _ Hds Hcts Hts) in He.
  rewrite (bool_decide_eq_true_2 (length ts = length datasets)) in He by done.
  simpl in He. case_bool_decide as Hmany.
  - apply bind_Ok in He as (tree & [Hfit ->]%read_levels_Ok & [= <-]).
    apply Forall_zip_snd in Hfit; [|done]. split; [done|]. by right.
  - destruct ts as [|t [|t' ts]]; destruct datasets as [|d [|d' ds]];
      simpl in *; try done; try lia.
    apply bind_Ok in He as (a & [Hfit ->]%DataArray_new_Ok & [= <-]).
    apply dims_fit_length in Hfit.
    split; [by repeat constructor|]. left. by exists t, d.
Qed.

(** C1, as amended: for a multiscale node with at least one declared
    dataset, if as many transformations were parsed as there are datasets
    and the array of every dataset has as many dimensions as the node has
    axes, then [_read_multiscale] returns an element with exactly one
    level per dataset; if the two counts differ, it raises the assertion
    error "Expecting one transformation per dataset.". *)
Theorem read_multiscale_counts node fmt datasets cts ts :
  load_Multiscales (specs node) = Some datasets →
  md_coordinateTransformations (metadata node) = Some cts →
  parse_transformations cts = Ok ts →
  (length ts = length datasets → 0 < length datasets →
   Forall (dims_fit node fmt) datasets →
   ∃ e, _read_multiscale node fmt = Ok e ∧ levels e = length datasets) ∧
  (length ts ≠ length datasets →
   _read_multiscale node fmt =
     Raise (AssertionError "Expecting one transformation per dataset.")).
Proof.
  intros Hds Hcts Hts. split.
  - intros Hlen Hpos Hfit.
    destruct (decide (1 < length datasets)) as [Hmany|Hone].
    + rewrite (read_multiscale_pyramid _ _ _ _ _ Hds Hcts Hts Hlen Hmany Hfit).
      eexists. split; [done|]. simpl.
      rewrite length_imap, length_zip. lia.
    + destruct ts as [|t [|t' ts]]; destruct datasets as [|d [|d' ds]];
        simpl in *; try lia.
      apply Forall_cons in Hfit as [Hfit _].
      rewrite (read_multiscale_single _ _ _ _ _ Hds Hcts Hts Hfit).
      by eexists.
  - intros Hlen. rewrite (read_multiscale_unfold _ _ _ _ _ Hds Hcts Hts).
    by rewrite (bool_decide_eq_false_2 (length ts = length datasets)).
Qed.

(** The keys of a pyramid are the synthetic labels of its levels, in the
    order of the datasets. *)
Lemma pyramid_keys {A B C} (f : A → B → C) (ts : list A) (ds : list B) :
  (imap (λ i '(t, d), (scale_key i, f t d)) (zip ts ds)).*1
  = scale_key <$> seq 0 (length (zip ts ds)).
Proof.
  rewrite fmap_imap, <-imap_seq_0.
  apply imap_ext. by intros i [t d] _.
Qed.

(** C3: a node with exactly one declared dataset yields a bare
    [SpatialImage], never a pyramid; a node with more than one dataset
    yields a pyramid whose levels are keyed [scale_key 0], [scale_key 1],
    ... in the order of the datasets, the level of index [i] holding the
    array of the dataset of index [i] and the transformation of index [i].
    Both hold of every call that returns, and the call does return when as
    many transformations were parsed as there are datasets and the arrays
    have as many dimensions as the node has axes. *)
Theorem read_multiscale_shape node fmt datasets :
  load_Multiscales (specs node) = Some datasets →
  (length datasets = 1 →
   (∀ e, _read_multiscale node fmt = Ok e → ∃ a, e = SpatialImage a) ∧
   (∀ cts t d,
      md_coordinateTransformations (metadata node) = Some cts →
      parse_transformations cts = Ok [t] → datasets = [d] →
      dims_fit node fmt d →
      _read_multiscale node fmt =
        Ok (SpatialImage
              {| da_data := array (zarr node) d (version fmt);
                 da_name :=
                   Some (default
                           (array_name (array (zarr node) d (version fmt)))
                           (md_name (metadata node)));
                 da_dims := ax_name <$> md_axes (metadata node);
                 da_attrs_transform := t |}))) ∧
  (1 < length datasets →
   (∀ e, _read_multiscale node fmt = Ok e →
      ∃ tree, e = MultiscaleSpatialImage tree ∧
              tree.*1 = scale_key <$> seq 0 (length datasets)) ∧
   (∀ cts ts,
      md_coordinateTransformations (metadata node) = Some cts →
      parse_transformations cts = Ok ts → length ts = length datasets →
      Forall (dims_fit node fmt) datasets →
      ∃ tree,
        _read_multiscale node fmt = Ok (MultiscaleSpatialImage tree) ∧
        tree.*1 = scale_key <$> seq 0 (length datasets) ∧
        ∀ i d t, datasets !! i = Some d → ts !! i = Some t →
          tree !! i =
            Some (scale_key i,
                  {| da_data := array (zarr node) d (version fmt);
                     da_name :=
                       Some (default
                               (array_name
                                  (array (zarr node) d (version fmt)))
                               (md_name (metadata node)));
                     da_dims := ax_name <$> md_axes (metadata node);
                     da_attrs_transform := t |}))).
Proof.
  intros Hds. split.
  - intros Hone. split.
    + intros e He.
      destruct (read_multiscale_Ok_cases _ _ _ He)
        as (ds & cts & ts & Hds' & _ & _ & _ & _ & Hcases).
      rewrite Hds in Hds'. injection Hds' as <-.
      destruct Hcases as [(t & d & _ & _ & ->)|[Hmany _]]; [eauto|lia].
    + intros cts t d Hcts Hts -> Hfit.
      by apply (read_multiscale_single _ _ cts).
  - intros Hmany. split.
    + intros e He.
      destruct (read_multiscale_Ok_cases _ _ _ He)
        as (ds & cts & ts & Hds' & _ & _ & Hlen & _ & Hcases).
      rewrite Hds in Hds'. injection Hds' as <-.
      destruct Hcases as [(t & d & _ & -> & _)|[_ ->]];
        [simpl in Hmany; lia|].
      eexists. split; [done|].
      rewrite pyramid_keys, length_zip. do 2 f_equal. lia.
    + intros cts ts Hcts Hts Hlen Hfit.
      rewrite (read_multiscale_pyramid _ _ _ _ _ Hds Hcts Hts Hlen Hmany Hfit).
      eexists. split; [done|]. split.
      * rewrite pyramid_keys, length_zip. do 2 f_equal. lia.
      * intros i d t Hd Ht. rewrite list_lookup_imap.
        assert (zip ts datasets !! i = Some (t, d)) as ->; [|done].
        apply lookup_zip_with_Some. eauto.
Qed.

(** The synthetic labels are "scale0", "scale1", ..., and no two levels
    share one. *)
Lemma scale_key_values :
  scale_key 0 = "scale0" ∧ scale_key 1 = "scale1" ∧ scale_key 10 = "scale10".
Proof. done. Qed.

Lemma scale_key_inj i j : scale_key i = scale_key j → i = j.
Proof.
  unfold scale_key. intros Heq. simpl in Heq.
  injection Heq as Heq. by apply (inj pretty).
Qed.

(** *** Classification of nodes *)

Lemma existsb_isinstance_Multiscales (node : Node) :
  existsb isinstance_Multiscales (specs node) = true ↔
  declares_multiscales node.
Proof.
  unfold declares_multiscales. rewrite existsb_exists. split.
  - intros ([ds| | | | |] & Hin & Hs); try done.
    exists ds. by apply list_elem_of_In.
  - intros (ds & Hin). exists (Multiscales ds).
    split; [by apply list_elem_of_In|done].
Qed.

Lemma existsb_isinstance_Label (node : Node) :
  existsb isinstance_Label (specs node) = true ↔ declares_label node.
Proof.
  unfold declares_label. rewrite existsb_exists. split.
  - intros ([] & Hin & Hs); try done. by apply list_elem_of_In.
  - intros Hin. exists Label. split; [by apply list_elem_of_In|done].
Qed.

Lemma forallb_not_isinstance_Label (node : Node) :
  forallb (λ spec, negb (isinstance_Label spec)) (specs node) = true ↔
  ¬ declares_label node.
Proof.
  unfold declares_label. rewrite forallb_forall. split.
  - intros Hall Hin%list_elem_of_In. by apply Hall in Hin.
  - intros Hno spec Hin%list_elem_of_In. destruct spec; try done.
Qed.

(** C2, as amended: in the pass over the nodes read at the group itself, a
    node that declares the multiscale marker and no label marker is read
    into the images mapping and every other node is skipped; in the pass
    over the nodes read at the "labels" sub-path, a node that declares both
    markers is read into the labels mapping and every other node is
    skipped. A node with neither marker or with the label marker only is
    therefore skipped in both passes. *)
Theorem node_classification k fmt st node :
  (declares_multiscales node ∧ ¬ declares_label node →
   read_image_node k fmt st node =
     (e ← _read_multiscale node fmt; Ok (set_images k e st))) ∧
  (¬ (declares_multiscales node ∧ ¬ declares_label node) →
   read_image_node k fmt st node = Ok st) ∧
  (declares_multiscales node ∧ declares_label node →
   read_labels_node k fmt st node =
     (e ← _read_multiscale node fmt; Ok (set_labels k e st))) ∧
  (¬ (declares_multiscales node ∧ declares_label node) →
   read_labels_node k fmt st node = Ok st) ∧
  (¬ declares_multiscales node →
   read_image_node k fmt st node = Ok st ∧
   read_labels_node k fmt st node = Ok st).
Proof.
  unfold read_image_node, read_labels_node.
  pose proof (existsb_isinstance_Multiscales node) as HM.
  pose proof (existsb_isinstance_Label node) as HL.
  pose proof (forallb_not_isinstance_Label node) as HnL.
  destruct (existsb isinstance_Multiscales (specs node));
    destruct (existsb isinstance_Label (specs node));
    destruct (forallb _ (specs node)); simpl;
    repeat split; intros; try done; exfalso; intuition congruence.
Qed.

(** *** Polygons *)

Lemma for_each_raises {A B} (body : A → B → result A) (l : list B) x :
  x ∈ l → (∀ a, raises (body a x)) → ∀ a, raises (for_each body a l).
Proof.
  intros Hin Hx. induction l as [|y l IH]; intros a.
  - by apply elem_of_nil in Hin.
  - simpl. apply elem_of_cons in Hin as [<-|Hin].
    + by apply bind_raises.
    + destruct (body a y) as [a'|e] eqn:Hy; simpl; [by apply IH|by exists e].
Qed.

(** An element that cannot be read aborts the whole read. *)
Lemma read_zarr_raises fmt store k g j :
  (k, g) ∈ store → j ∈ g_keys g →
  (∀ st, raises (read_rest_key k g st j)) →
  raises (read_zarr fmt store).
Proof.
  intros Hstore Hkey Hj. unfold read_zarr. apply bind_raises.
  apply (for_each_raises _ _ (k, g)); [done|].
  intros st. unfold read_group.
  destruct (read_images k fmt (g_image_nodes g) st) as [st1|e1];
    simpl; [|by exists e1].
  destruct (read_labels k fmt (g_labels_nodes g) st1) as [st2|e2];
    simpl; [|by exists e2].
  by apply (for_each_raises _ _ j).
Qed.

Lemma read_rest_key_polygons k g st f :
  g_polygons g = Some f →
  read_rest_key k g st "polygons" =
    (p ← _read_polygons f; Ok (set_polygons k p st)).
Proof.
  intros Hf. unfold read_rest_key. simpl. rewrite Hf. simpl.
  by destruct (_read_polygons f).
Qed.

(** C4: when the name of the geometry type built from the stored code
    differs from the stored [geometry_name], [_read_polygons] raises (the
    assertion error, once the coordinate and offset buffers are loaded),
    and so does every read of a store that holds the element; when the two
    agree, decoding goes on with the transformation and the ragged
    array. *)
Theorem polygons_name_cross_check f geos code typ name :
  pa_spatialdata_attrs (ps_attrs f) = Some (Some geos) →
  geometry_type geos = Some code →
  GeometryType_of_code code = Ok typ →
  geometry_name geos = Some name →
  (GeometryType_name typ ≠ name →
   raises (_read_polygons f) ∧
   (∀ coords a offsets,
      ps_coords f = Some coords → ps_offsets f = Some a →
      split_offsets a = Ok offsets →
      _read_polygons f = Raise (AssertionError "")) ∧
   (∀ fmt store k g,
      (k, g) ∈ store → "polygons" ∈ g_keys g → g_polygons g = Some f →
      raises (read_zarr fmt store))) ∧
  (GeometryType_name typ = name →
   ∀ coords a offsets,
     ps_coords f = Some coords → ps_offsets f = Some a →
     split_offsets a = Ok offsets →
     _read_polygons f =
       (transforms ← first_transformation (pa_multiscales (ps_attrs f));
        geometry ← from_ragged_array typ coords offsets;
        Ok {| gdf_columns := [("geometry", geometry)];
              gdf_attrs := {["transform" := transforms]} |})).
Proof.
  intros Hattrs Hcode Htyp Hname. split.
  - intros Hne.
    assert (String.eqb (GeometryType_name typ) name = false) as Heqb
      by by apply String.eqb_neq.
    assert (raises (_read_polygons f)) as Hraises.
    { unfold _read_polygons.
      destruct (ps_coords f) as [coords|]; simpl; [|by eexists].
      destruct (ps_offsets f) as [a|]; simpl; [|by eexists].
      destruct (split_offsets a) as [offsets|e]; simpl; [|by eexists].
      rewrite Hattrs. simpl. rewrite Hcode. simpl. rewrite Htyp. simpl.
      rewrite Hname. simpl. rewrite Heqb. simpl. by eexists. }
    split; [done|]. split.
    + intros coords a offsets Hcoords Ha Hsplit. unfold _read_polygons.
      rewrite Hcoords, Ha. simpl. rewrite Hsplit. simpl.
      rewrite Hattrs. simpl. rewrite Hcode. simpl. rewrite Htyp. simpl.
      rewrite Hname. simpl. by rewrite Heqb.
    + intros fmt store k g Hstore Hkey Hf.
      apply (read_zarr_raises fmt store k g "polygons"); [done..|].
      intros st. rewrite (read_rest_key_polygons _ _ _ _ Hf).
      by apply bind_raises.
  - intros Heq coords a offsets Hcoords Ha Hsplit. unfold _read_polygons.
    rewrite Hcoords, Ha. simpl. rewrite Hsplit. simpl.
    rewrite Hattrs. simpl. rewrite Hcode. simpl. rewrite Htyp. simpl.
    rewrite Hname. simpl.
    apply String.eqb_eq in Heq. by rewrite Heq.
Qed.

(** What [_read_polygons] returns carries the transformation in its
    [attrs], under "transform", and has the geometries as its only column;
    the transformation is the one parsed from the first description. *)
Lemma read_polygons_Ok_inv f df :
  _read_polygons f = Ok df →
  ∃ t, first_transformation (pa_multiscales (ps_attrs f)) = Ok t ∧
       gdf_attrs df = {["transform" := t]} ∧
       (gdf_columns df).*1 = ["geometry"].
Proof.
  unfold _read_polygons.
  intros (coords & _ & (a & _ & (offsets & _ & (sa & _ & (geos & _ &
    (code & _ & (typ & _ & (name & _ & (_ & _ & (t & Ht & (geometry & _ &
    [= <-])%bind_Ok)%bind_Ok)%bind_Ok)%bind_Ok)%bind_Ok)%bind_Ok)%bind_Ok)
    %bind_Ok)%bind_Ok)%bind_Ok)%bind_Ok.
  by exists t.
Qed.

(** With no transformation description, nothing is returned. *)
Lemma first_transformation_none ms m0 d0 :
  ms !! 0 = Some m0 → me_datasets m0 !! 0 = Some d0 →
  de_coordinateTransformations d0 = Some [] →
  first_transformation (Some ms) = Raise IndexError.
Proof.
  intros Hm Hd Hc. unfold first_transformation, getindex. simpl.
  rewrite Hm. simpl. rewrite Hd. simpl. by rewrite Hc.
Qed.

(** With at least one description, the first one is decoded and the others
    are not looked at. *)
Lemma first_transformation_first ms m0 d0 t0 cts :
  ms !! 0 = Some m0 → me_datasets m0 !! 0 = Some d0 →
  de_coordinateTransformations d0 = Some (t0 :: cts) →
  first_transformation (Some ms) = get_transformation_from_dict t0.
Proof.
  intros Hm Hd Hc. unfold first_transformation, getindex. simpl.
  rewrite Hm. simpl. rewrite Hd. simpl. by rewrite Hc.
Qed.

(** *** Attributes of the table *)

(** [if k not in attrs: attrs[k] = None] *)
Lemma setdefault_None_lookup (attrs : gmap string pyval) k j :
  (if negb (contains attrs k) then <[k := PyNone]> attrs else attrs) !! j =
    if decide (j = k) then Some (default PyNone (attrs !! k)) else attrs !! j.
Proof.
  unfold contains. destruct (attrs !! k) as [v|] eqn:Hk.
  - rewrite bool_decide_eq_true_2 by eauto. simpl.
    case_decide; by subst.
  - rewrite bool_decide_eq_false_2 by (by intros [? ?]). simpl.
    case_decide; subst; by simplify_map_eq.
Qed.

(** The entries of the completed attributes, key by key. *)
Lemma fix_attrs_lookup (attrs : gmap string pyval) k :
  fix_attrs attrs !! k =
    if decide (k = "region") then
      match attrs !! "region" with
      | None => Some PyNone
      | Some (PyNdarray a) => Some (tolist a)
      | Some v => Some v
      end
    else if decide (k = "region_key" ∨ k = "instance_key") then
      match attrs !! k with
      | None => Some PyNone
      | Some v => Some v
      end
    else attrs !! k.
Proof.
  unfold fix_attrs.
  set (a1 := if negb (contains attrs "region") then _ else _).
  set (a2 := if negb (contains a1 "region_key") then _ else _).
  set (a3 := if negb (contains a2 "instance_key") then _ else _).
  assert (∀ j, a3 !! j =
    if decide (j = "instance_key") then
      Some (default PyNone (attrs !! "instance_key"))
    else if decide (j = "region_key") then
      Some (default PyNone (attrs !! "region_key"))
    else if decide (j = "region") then
      Some (default PyNone (attrs !! "region"))
    else attrs !! j) as Ha3.
  { intros j. unfold a3, a2, a1.
    rewrite !setdefault_None_lookup.
    repeat case_decide; try done; subst; try done. }
  rewrite (Ha3 "region"). simpl.
  destruct (attrs !! "region") as [[x|l|a]|] eqn:Hr; simpl;
    try rewrite lookup_insert; rewrite ?Ha3;
    repeat case_decide; subst; try done; try tauto;
    try (by destruct (attrs !! "region_key"));
    try (by destruct (attrs !! "instance_key")).
Qed.

Lemma elem_of_table_keys k :
  k ∈ table_keys ↔ k = "region" ∨ k = "region_key" ∨ k = "instance_key".
Proof.
  unfold table_keys. rewrite !elem_of_cons, elem_of_nil. tauto.
Qed.

Lemma tolist_not_ndarray a : isinstance_ndarray (tolist a) = false.
Proof. by destruct a. Qed.

(** A one-dimensional array becomes the list of its items, in order. *)
Lemma tolist_one_dimensional xs :
  tolist (NdAxis (NdItem <$> xs)) = PyList (PyScalar <$> xs).
Proof. simpl. f_equal. rewrite <-list_fmap_compose. done. Qed.

Lemma fix_attrs_idempotent (attrs : gmap string pyval) :
  fix_attrs (fix_attrs attrs) = fix_attrs attrs.
Proof.
  apply map_eq. intros k. rewrite !fix_attrs_lookup.
  repeat case_decide; try done.
  - destruct (attrs !! "region") as [[x|l|a]|]; try done. by destruct a.
  - by destruct (attrs !! k).
Qed.

Lemma fix_table_dict table attrs :
  uns table !! ATTRS_KEY = Some (UDict attrs) →
  fix_table table = Ok (set_uns ATTRS_KEY (UDict (fix_attrs attrs)) table).
Proof. intros Hattrs. unfold fix_table. by rewrite Hattrs. Qed.

Lemma fix_table_absent table :
  uns table !! ATTRS_KEY = None → fix_table table = Ok table.
Proof. intros Hattrs. unfold fix_table. by rewrite Hattrs. Qed.

Lemma fix_table_Ok_inv table table' :
  fix_table table = Ok table' →
  (uns table !! ATTRS_KEY = None ∧ table' = table) ∨
  (∃ attrs, uns table !! ATTRS_KEY = Some (UDict attrs) ∧
            table' = set_uns ATTRS_KEY (UDict (fix_attrs attrs)) table).
Proof.
  unfold fix_table.
  destruct (uns table !! ATTRS_KEY) as [[attrs|[x|l|a]|t]|]; try done.
  - intros [= <-]. right. by exists attrs.
  - intros [= <-]. by left.
Qed.

(** The key "table" of a group loads the table and completes its
    attributes before the table is kept. *)
Lemma read_rest_key_table k g st :
  read_rest_key k g st "table" =
    (table ← g_table g; table ← fix_table table; Ok (set_table table st)).
Proof. done. Qed.

(** C6: when the metadata of a loaded table holds the attribute group, the
    keys "region", "region_key" and "instance_key" all exist afterward;
    each one that was missing holds [None], each one that was present is
    still present, and "region_key" and "instance_key" keep their value.
    When the attribute group is absent, the table is left as it is. Every
    table that [read_zarr] loads goes through this step. *)
Theorem fix_table_completes_keys table :
  (∀ attrs, uns table !! ATTRS_KEY = Some (UDict attrs) →
   ∃ table' attrs',
     fix_table table = Ok table' ∧
     uns table' !! ATTRS_KEY = Some (UDict attrs') ∧
     (∀ k, k ∈ table_keys → is_Some (attrs' !! k)) ∧
     (∀ k, k ∈ table_keys → attrs !! k = None → attrs' !! k = Some PyNone) ∧
     (∀ k v, k = "region_key" ∨ k = "instance_key" →
             attrs !! k = Some v → attrs' !! k = Some v)) ∧
  (uns table !! ATTRS_KEY = None → fix_table table = Ok table) ∧
  (∀ k g st, read_rest_key k g st "table" =
     (table ← g_table g; table ← fix_table table; Ok (set_table table st))).
Proof.
  split; [|split; [apply fix_table_absent|apply read_rest_key_table]].
  intros attrs Hattrs.
  exists (set_uns ATTRS_KEY (UDict (fix_attrs attrs)) table), (fix_attrs attrs).
  split; [by apply fix_table_dict|].
  split; [apply lookup_insert_eq|].
  repeat split.
  - intros k Hk%elem_of_table_keys. rewrite fix_attrs_lookup.
    repeat case_decide.
    + destruct (attrs !! "region") as [[x|l|a]|]; eauto.
    + destruct (attrs !! k); eauto.
    + tauto.
  - intros k Hk%elem_of_table_keys Hnone. rewrite fix_attrs_lookup.
    repeat case_decide; subst.
    + by rewrite Hnone.
    + by rewrite Hnone.
    + tauto.
  - intros k v Hk Hv. rewrite fix_attrs_lookup.
    repeat case_decide; subst.
    + by destruct Hk.
    + by rewrite Hv.
    + tauto.
Qed.

(** C7: completing the attributes twice gives what completing them once
    gives, for the table (whatever the outcome) and for the attribute
    group; a "region" held as an array becomes [tolist] of it, which for a
    one-dimensional array is the list of its items in order; a "region"
    held as a list is kept as it is. *)
Theorem fix_table_idempotent :
  (∀ table, fix_table table ≫= fix_table = fix_table table) ∧
  (∀ attrs, fix_attrs (fix_attrs attrs) = fix_attrs attrs) ∧
  (∀ attrs a, attrs !! "region" = Some (PyNdarray a) →
     fix_attrs attrs !! "region" = Some (tolist a) ∧
     isinstance_ndarray (tolist a) = false) ∧
  (∀ attrs xs, attrs !! "region" = Some (PyNdarray (NdAxis (NdItem <$> xs))) →
     fix_attrs attrs !! "region" = Some (PyList (PyScalar <$> xs))) ∧
  (∀ attrs l, attrs !! "region" = Some (PyList l) →
     fix_attrs attrs !! "region" = Some (PyList l)).
Proof.
  split; [|split; [|split; [|split]]].
  - intros table. unfold fix_table at 2 3.
    destruct (uns table !! ATTRS_KEY) as [[attrs|[x|l|a]|t]|] eqn:Hattrs;
      try done; simpl.
    + rewrite (fix_table_dict _ (fix_attrs attrs)) by apply lookup_insert_eq.
      rewrite fix_attrs_idempotent. unfold set_uns. simpl.
      by rewrite insert_insert_eq.
    + by apply fix_table_absent.
  - apply fix_attrs_idempotent.
  - intros attrs a Hr. split; [|apply tolist_not_ndarray].
    rewrite fix_attrs_lookup. simpl. by rewrite Hr.
  - intros attrs xs Hr. rewrite fix_attrs_lookup. simpl. rewrite Hr.
    by rewrite <-tolist_one_dimensional.
  - intros attrs l Hr. rewrite fix_attrs_lookup. simpl. by rewrite Hr.
Qed.

(** C10: completing the attributes of a table leaves its rows, every other
    entry of its metadata and every other key of the attribute group as
    they were; inside the attribute group, each of the three keys either
    keeps its entry, or was missing and now holds [None], or is "region",
    held an array and now holds [tolist] of it. *)
Theorem fix_table_frame table table' :
  fix_table table = Ok table' →
  adata_rows table' = adata_rows table ∧
  (∀ key, key ≠ ATTRS_KEY → uns table' !! key = uns table !! key) ∧
  (uns table !! ATTRS_KEY = None → table' = table) ∧
  (∀ attrs, uns table !! ATTRS_KEY = Some (UDict attrs) →
   ∃ attrs',
     uns table' !! ATTRS_KEY = Some (UDict attrs') ∧
     (∀ k, k ∉ table_keys → attrs' !! k = attrs !! k) ∧
     (∀ k, k ∈ table_keys →
        attrs' !! k = attrs !! k ∨
        (attrs !! k = None ∧ attrs' !! k = Some PyNone) ∨
        (k = "region" ∧ ∃ a, attrs !! k = Some (PyNdarray a) ∧
                             attrs' !! k = Some (tolist a)))).
Proof.
  intros [[Hnone ->]|(attrs & Hattrs & ->)]%fix_table_Ok_inv.
  - repeat split; try done. intros attrs Hattrs. congruence.
  - repeat split; try done.
    + intros key Hkey. simpl. by rewrite lookup_insert_ne.
    + congruence.
    + intros attrs0 Hattrs0. rewrite Hattrs in Hattrs0.
      injection Hattrs0 as <-. exists (fix_attrs attrs).
      split; [apply lookup_insert_eq|]. split.
      * intros k Hk. rewrite elem_of_table_keys in Hk.
        rewrite fix_attrs_lookup. repeat case_decide; try done; tauto.
      * intros k Hk. rewrite fix_attrs_lookup.
        repeat case_decide; subst.
        -- destruct (attrs !! "region") as [[x|l|a]|]; eauto 10.
        -- destruct (attrs !! k); eauto.
        -- by left.
Qed.

(** *** The traversal of the store *)

Lemma for_each_app {A B} (body : A → B → result A) a l1 l2 :
  for_each body a (l1 ++ l2) =
    (a' ← for_each body a l1; for_each body a' l2).
Proof.
  revert a. induction l1 as [|x l1 IH]; intros a; simpl; [done|].
  destruct (body a x) as [a'|e]; simpl; [apply IH|done].
Qed.

(** A property of the accumulated state that every iteration keeps is
    kept by the loop. *)
Lemma for_each_invariant {A B} (P : A → Prop) (body : A → B → result A) l :
  (∀ a x a', x ∈ l → P a → body a x = Ok a' → P a') →
  ∀ a a', P a → for_each body a l = Ok a' → P a'.
Proof.
  induction l as [|x l IH]; intros Hbody a a' Ha; simpl.
  - by intros [= <-].
  - intros (a1 & Hx & Hl)%bind_Ok.
    apply (IH (λ a0 y a0' Hy, Hbody a0 y a0' (list_elem_of_further _ _ _ Hy)) a1);
      [|done].
    apply (Hbody a x a1); [left|done..].
Qed.

Ltac inv_result :=
  repeat match goal with
  | H : _ ≫= _ = Ok _ |- _ =>
      let x := fresh "x" in
      let Hx := fresh "Hx" in
      apply bind_Ok in H as (x & Hx & H)
  | H : (if ?b then _ else _) = Ok _ |- _ => destruct b eqn:?
  | H : Ok _ = Ok _ |- _ => injection H as H; subst
  end.

(** Reading a node in the pass over the image nodes touches only the
    images mapping. *)
Lemma read_image_node_frame k fmt st node st' :
  read_image_node k fmt st node = Ok st' →
  l_labels st' = l_labels st ∧ l_table st' = l_table st.
Proof. unfold read_image_node. intros Hr. by inv_result. Qed.

(** Reading a node in the pass over the labels nodes touches only the entry
    of the group in the labels mapping. *)
Lemma read_labels_node_frame k fmt st node st' :
  read_labels_node k fmt st node = Ok st' →
  l_table st' = l_table st ∧
  ∀ k', k' ≠ k → l_labels st' !! k' = l_labels st !! k'.
Proof.
  unfold read_labels_node. intros Hr. inv_result; simpl; [|done].
  split; [done|]. intros k' Hk'. by rewrite lookup_insert_ne.
Qed.

Lemma read_images_frame k fmt nodes st st' :
  read_images k fmt nodes st = Ok st' →
  l_labels st' = l_labels st ∧ l_table st' = l_table st.
Proof.
  unfold read_images. case_bool_decide; [|by intros [= <-]].
  apply (for_each_invariant
           (λ a, l_labels a = l_labels st ∧ l_table a = l_table st));
    [|done].
  intros a node a' _ [Hl Ht] [Hl' Ht']%read_image_node_frame. split; congruence.
Qed.

Lemma read_labels_frame k fmt labels_loc st st' :
  read_labels k fmt labels_loc st = Ok st' →
  l_table st' = l_table st ∧
  (∀ k', k' ≠ k → l_labels st' !! k' = l_labels st !! k') ∧
  (labels_loc = None → st' = st).
Proof.
  unfold read_labels. destruct labels_loc as [nodes|]; [|by intros [= <-]].
  case_bool_decide; [|by intros [= <-]].
  intros Hloop. assert (l_table st' = l_table st ∧
    ∀ k', k' ≠ k → l_labels st' !! k' = l_labels st !! k') as [? ?]; [|done].
  revert Hloop.
  apply (for_each_invariant
           (λ a, l_table a = l_table st ∧
                 ∀ k', k' ≠ k → l_labels a !! k' = l_labels st !! k')); [|done].
  intros a node a' _ [Ht Hl] [Ht' Hl']%read_labels_node_frame.
  split; [congruence|]. intros k' Hk'. by rewrite Hl', Hl.
Qed.

(** What the key [j] of a group does to the labels mapping and to the
    table. *)
Lemma read_rest_key_frame k g st j st' :
  read_rest_key k g st j = Ok st' →
  l_labels st' = l_labels st ∧
  (j ≠ "table" → l_table st' = l_table st) ∧
  (j = "table" →
   ∃ t t', g_table g = Ok t ∧ fix_table t = Ok t' ∧ l_table st' = Some t').
Proof.
  unfold read_rest_key. simpl. intros Hr.
  inv_result; simpl;
    repeat match goal with
    | H : String.eqb _ _ = true |- _ => apply String.eqb_eq in H
    | H : String.eqb _ _ = false |- _ => apply String.eqb_neq in H
    end;
    subst; (split; [done|]); (split; [done|]); try done; eauto.
Qed.

Lemma read_rest_frame k g keys st st' :
  for_each (read_rest_key k g) st keys = Ok st' →
  l_labels st' = l_labels st ∧
  ("table" ∉ keys → l_table st' = l_table st) ∧
  ("table" ∈ keys →
   ∃ t t', g_table g = Ok t ∧ fix_table t = Ok t' ∧ l_table st' = Some t').
Proof.
  revert st. induction keys as [|j keys IH]; intros st; simpl.
  - intros [= <-]. split; [done|]. split; [done|].
    by intros ?%elem_of_nil.
  - intros (st1 & Hj & Hkeys)%bind_Ok.
    destruct (read_rest_key_frame _ _ _ _ _ Hj) as (Hl1 & Hn1 & Ht1).
    destruct (IH _ Hkeys) as (Hl & Hn & Ht).
    split; [congruence|]. split.
    + intros Hnotin. apply not_elem_of_cons in Hnotin as [Hne Hnotin].
      rewrite Hn by done. apply Hn1. congruence.
    + intros Hin. destruct (decide ("table" ∈ keys)) as [Hin'|Hnotin].
      * by apply Ht.
      * apply elem_of_cons in Hin as [<-|]; [|done].
        destruct Ht1 as (t & t' & ? & ? & Ht1); [done|].
        exists t, t'. rewrite Hn by done. done.
Qed.

(** What a top-level group does to the labels mapping and to the table. *)
Lemma read_group_frame fmt st k g st' :
  read_group fmt st (k, g) = Ok st' →
  (∀ k', k' ≠ k → l_labels st' !! k' = l_labels st !! k') ∧
  (g_labels_nodes g = None → l_labels st' = l_labels st) ∧
  ("table" ∉ g_keys g → l_table st' = l_table st) ∧
  ("table" ∈ g_keys g →
   ∃ t t', g_table g = Ok t ∧ fix_table t = Ok t' ∧ l_table st' = Some t').
Proof.
  unfold read_group.
  intros (st1 & H1 & (st2 & H2 & H3)%bind_Ok)%bind_Ok.
  apply read_images_frame in H1 as [Hl1 Ht1].
  apply read_labels_frame in H2 as (Ht2 & Hl2 & Hnone).
  apply read_rest_frame in H3 as (Hl3 & Hn3 & Ht3).
  repeat split.
  - intros k' Hk'. by rewrite Hl3, Hl2, Hl1.
  - intros Hg. rewrite Hl3, (Hnone Hg). done.
  - intros Hnotin. rewrite Hn3 by done. congruence.
  - done.
Qed.

(** C8: the table of the returned dataset is the table of the last group,
    in the order in which the groups are processed, that has a "table"
    child: when that group is followed only by groups without one, the
    dataset holds its table, with the attributes completed, whatever
    tables the groups before it declared. *)
Theorem last_table_wins fmt pre k g post sd :
  "table" ∈ g_keys g →
  Forall (λ kg, "table" ∉ g_keys kg.2) post →
  read_zarr fmt (pre ++ (k, g) :: post) = Ok sd →
  ∃ t t', g_table g = Ok t ∧ fix_table t = Ok t' ∧ table sd = Some t'.
Proof.
  intros Hin Hpost. unfold read_zarr.
  intros (st & Hloop & [= <-])%bind_Ok. simpl.
  rewrite for_each_app in Hloop.
  apply bind_Ok in Hloop as (st1 & _ & Hloop). simpl in Hloop.
  apply bind_Ok in Hloop as (st2 & Hg & Hloop).
  apply read_group_frame in Hg as (_ & _ & _ & Ht).
  destruct (Ht Hin) as (t & t' & Hload & Hfix & Hst2).
  exists t, t'. split; [done|]. split; [done|].
  revert Hloop.
  apply (for_each_invariant (λ a, l_table a = Some t')); [|done].
  intros a [k' g'] a' Hkg Ha Hstep.
  apply read_group_frame in Hstep as (_ & _ & Hn & _).
  rewrite Hn; [done|].
  rewrite Forall_forall in Hpost. by apply (Hpost (k', g')).
Qed.

(** Without any "table" child in the store, the dataset has no table. *)
Lemma no_table fmt store sd :
  Forall (λ kg, "table" ∉ g_keys kg.2) store →
  read_zarr fmt store = Ok sd → table sd = None.
Proof.
  intros Hstore. unfold read_zarr.
  intros (st & Hloop & [= <-])%bind_Ok. simpl. revert Hloop.
  apply (for_each_invariant (λ a, l_table a = None)); [|done].
  intros a [k' g'] a' Hkg Ha Hstep.
  apply read_group_frame in Hstep as (_ & _ & Hn & _).
  rewrite Hn; [done|].
  rewrite Forall_forall in Hstore. by apply (Hstore (k', g')).
Qed.

(** C9: for a group without a "labels" sub-path, the step that reads the
    labels does nothing: the group is processed as the pass over its image
    nodes followed by the pass over its keys, so it is read whenever these
    two passes succeed; the labels mapping is left as it was; and a
    dataset read from a store in which no group named [k] has a "labels"
    sub-path has no entry for [k] in its labels mapping. *)
Theorem missing_labels_tolerated fmt k g :
  g_labels_nodes g = None →
  (∀ st, read_group fmt st (k, g) =
     (st1 ← read_images k fmt (g_image_nodes g) st;
      for_each (read_rest_key k g) st1 (g_keys g))) ∧
  (∀ st st', read_group fmt st (k, g) = Ok st' → l_labels st' = l_labels st) ∧
  (∀ store sd,
     (∀ g', (k, g') ∈ store → g_labels_nodes g' = None) →
     read_zarr fmt store = Ok sd → labels sd !! k = None).
Proof.
  intros Hnone. repeat split.
  - intros st. unfold read_group. rewrite Hnone. simpl.
    by destruct (read_images k fmt (g_image_nodes g) st).
  - intros st st' Hg. apply read_group_frame in Hg as (_ & Hl & _).
    by apply Hl.
  - intros store sd Hstore. unfold read_zarr.
    intros (st & Hloop & [= <-])%bind_Ok. simpl. revert Hloop.
    apply (for_each_invariant (λ a, l_labels a !! k = None)); [|done].
    intros a [k' g'] a' Hkg Ha Hstep.
    apply read_group_frame in Hstep as (Hother & Hsame & _).
    destruct (decide (k' = k)) as [->|Hne].
    + rewrite Hsame; [done|]. by apply Hstore.
    + by rewrite Hother.
Qed.

(** ** Further properties of [_read_multiscale] *)

Lemma parse_transformations_cons t cts :
  parse_transformations (t :: cts) =
    (x ← (d ← first_item t; get_transformation_from_dict d);
     xs ← parse_transformations cts; Ok (x :: xs)).
Proof. done. Qed.

(** X2: parsing returns exactly when every entry is a list with a first
    description that decodes; the result holds the decoded first
    descriptions in order, and what follows the first description of an
    entry is never looked at. *)
Theorem parse_transformations_first_only cts ts :
  parse_transformations cts = Ok ts ↔
  Forall2 (λ t x, ∃ d rest, t = Some (d :: rest) ∧
                            get_transformation_from_dict d = Ok x) cts ts.
Proof.
  revert ts. induction cts as [|t cts IH]; intros ts.
  - split.
    + intros [= <-]. constructor.
    + by intros ->%Forall2_nil_inv_l.
  - rewrite parse_transformations_cons. split.
    + intros (x & (d & Hd & Hx)%bind_Ok & (xs & Hxs & [= <-])%bind_Ok)%bind_Ok.
      constructor; [|by apply IH].
      destruct t as [[|d' rest]|]; try done.
      injection Hd as ->. by exists d, rest.
    + intros (x & xs & (d & rest & -> & Hx) & Hxs & ->)%Forall2_cons_inv_l.
      apply IH in Hxs. simpl. unfold getindex. simpl. rewrite Hx. simpl.
      by rewrite Hxs.
Qed.

(** X1: [_read_multiscale] returns exactly when the node has a
    [Multiscales] spec with at least one dataset, its metadata has the
    entry "coordinateTransformations" with one item per dataset, every
    item parses, and the array of every dataset has as many dimensions as
    the node has axes. *)
Theorem read_multiscale_returns_iff node fmt :
  returns (_read_multiscale node fmt) ↔
  ∃ datasets cts ts,
    load_Multiscales (specs node) = Some datasets ∧
    md_coordinateTransformations (metadata node) = Some cts ∧
    parse_transformations cts = Ok ts ∧
    length cts = length datasets ∧ 0 < length datasets ∧
    Forall (dims_fit node fmt) datasets.
Proof.
  split.
  - intros [e He].
    destruct (read_multiscale_Ok_cases _ _ _ He)
      as (datasets & cts & ts & Hds & Hcts & Hts & Hlen & Hfit & Hcases).
    exists datasets, cts, ts. repeat split; try done.
    + by rewrite <-(parse_transformations_length _ _ Hts).
    + destruct Hcases as [(t & d & _ & -> & _)|[Hmany _]]; simpl; lia.
  - intros (datasets & cts & ts & Hds & Hcts & Hts & Hlen & Hpos & Hfit).
    rewrite <-(parse_transformations_length _ _ Hts) in Hlen.
    destruct (decide (1 < length datasets)) as [Hmany|Hone].
    + rewrite (read_multiscale_pyramid _ _ _ _ _ Hds Hcts Hts Hlen Hmany Hfit).
      by eexists.
    + destruct ts as [|t [|t' ts]]; destruct datasets as [|d [|d' ds]];
        simpl in *; try lia.
      apply Forall_cons in Hfit as [Hfit _].
      rewrite (read_multiscale_single _ _ _ _ _ Hds Hcts Hts Hfit).
      by eexists.
Qed.

Global Instance scale_key_Inj : Inj (=) (=) scale_key.
Proof. intros i j. apply scale_key_inj. Qed.

(** X3: the element that [_read_multiscale] returns has as many levels as
    the node has datasets; a bare image comes from exactly one dataset, and
    a pyramid has at least two levels whose keys are pairwise distinct. *)
Theorem read_multiscale_levels node fmt datasets e :
  load_Multiscales (specs node) = Some datasets →
  _read_multiscale node fmt = Ok e →
  levels e = length datasets ∧
  match e with
  | SpatialImage _ => length datasets = 1
  | MultiscaleSpatialImage tree => (2 ≤ length tree)%nat ∧ NoDup tree.*1
  end.
Proof.
  intros Hds He.
  destruct (read_multiscale_Ok_cases _ _ _ He)
    as (ds & cts & ts & Hds' & _ & _ & Hlen & _ & Hcases).
  rewrite Hds in Hds'. injection Hds' as <-.
  destruct Hcases as [(t & d & -> & -> & ->)|[Hmany ->]]; [done|].
  simpl. rewrite length_imap, length_zip, Hlen, Nat.min_id.
  split; [done|]. split; [lia|].
  rewrite pyramid_keys. apply (NoDup_fmap_2 _), NoDup_seq.
Qed.

(** X4: the levels of the returned element hold, in the order of the
    datasets, the arrays of the datasets and the parsed transformations;
    each level carries the axis names of the node in their declared
    order, as many as its array has dimensions, and is named after the
    node, or after its array when the name of the node is [None]. *)
Theorem read_multiscale_contents node fmt datasets cts e :
  load_Multiscales (specs node) = Some datasets →
  md_coordinateTransformations (metadata node) = Some cts →
  _read_multiscale node fmt = Ok e →
  parse_transformations cts = Ok (da_attrs_transform <$> element_arrays e) ∧
  da_data <$> element_arrays e =
    (λ d, array (zarr node) d (version fmt)) <$> datasets ∧
  Forall (λ a, da_name a =
                 Some (default (array_name (da_data a))
                               (md_name (metadata node))) ∧
               da_dims a = ax_name <$> md_axes (metadata node) ∧
               length (da_dims a) = ndim (da_data a))
         (element_arrays e).
Proof.
  intros Hds Hcts He.
  destruct (read_multiscale_Ok_cases _ _ _ He)
    as (ds & cts' & ts & Hds' & Hcts' & Hts & Hlen & Hfit & Hcases).
  rewrite Hds in Hds'. injection Hds' as <-.
  rewrite Hcts in Hcts'. injection Hcts' as <-.
  destruct Hcases as [(t & d & -> & -> & ->)|[_ ->]].
  - simpl. repeat split; [done|].
    apply Forall_cons in Hfit as [Hfit%dims_fit_length _].
    by repeat constructor.
  - simpl. clear He Hds Hcts.
    assert (∀ (f : nat → string) (ts : list Transformation) ds,
      length ts = length ds → Forall (dims_fit node fmt) ds →
      let tree := imap (λ i '(t, d),
                          (f i,
                           {| da_data := array (zarr node) d (version fmt);
                              da_name :=
                                Some (default
                                        (array_name
                                           (array (zarr node) d (version fmt)))
                                        (md_name (metadata node)));
                              da_dims := ax_name <$> md_axes (metadata node);
                              da_attrs_transform := t |}))
                       (zip ts ds) in
      da_attrs_transform <$> tree.*2 = ts ∧
      da_data <$> tree.*2 = (λ d, array (zarr node) d (version fmt)) <$> ds ∧
      Forall (λ a, da_name a =
                     Some (default (array_name (da_data a))
                                   (md_name (metadata node))) ∧
                   da_dims a = ax_name <$> md_axes (metadata node) ∧
                   length (da_dims a) = ndim (da_data a)) tree.*2)
      as Hgen.
    { intros f ts0. revert f.
      induction ts0 as [|t ts0 IH]; intros f [|d ds] Hl Hf; simpl in *;
        try done.
      apply Forall_cons in Hf as [Hd%dims_fit_length Hf].
      destruct (IH (f ∘ S) ds) as (IH1 & IH2 & IH3); [lia|done|].
      repeat split; [by f_equal|by f_equal|]. by constructor. }
    destruct (Hgen scale_key ts datasets Hlen Hfit) as (H1 & H2 & H3).
    rewrite H1. done.
Qed.

(** ** Further properties of the traversal *)

Lemma option_union_None_l {A} (o : option A) : None ∪ o = o.
Proof. by destruct o. Qed.

Lemma option_union_assoc {A} (o1 o2 o3 : option A) :
  o1 ∪ (o2 ∪ o3) = (o1 ∪ o2) ∪ o3.
Proof. by destruct o1, o2, o3. Qed.

Lemma Locals_merge_empty_l st : Locals_merge Locals_empty st = st.
Proof.
  destruct st. unfold Locals_merge, Locals_empty. simpl.
  rewrite !(right_id_L ∅ (∪)). by destruct l_table0.
Qed.

Lemma Locals_merge_empty_r st : Locals_merge st Locals_empty = st.
Proof.
  destruct st. unfold Locals_merge, Locals_empty. simpl.
  by rewrite !(left_id_L ∅ (∪)), option_union_None_l.
Qed.

Lemma Locals_merge_assoc st1 st2 st3 :
  Locals_merge (Locals_merge st1 st2) st3 =
  Locals_merge st1 (Locals_merge st2 st3).
Proof.
  unfold Locals_merge. simpl.
  f_equal; solve [apply (assoc_L (∪)) | apply option_union_assoc].
Qed.

Lemma additive_Ok : additive Ok.
Proof. intros st. simpl. by rewrite Locals_merge_empty_r. Qed.

Lemma additive_bind f g :
  additive f → additive g → additive (λ st, st1 ← f st; g st1).
Proof.
  intros Hf Hg st. rewrite (Hf st).
  destruct (f Locals_empty) as [d1|e1]; simpl; [|done].
  rewrite (Hg (Locals_merge st d1)), (Hg d1).
  destruct (g Locals_empty) as [d2|e2]; simpl; [|done].
  by rewrite Locals_merge_assoc.
Qed.

Lemma additive_for_each {B} (body : Locals → B → result Locals) l :
  (∀ x, additive (λ st, body st x)) →
  additive (λ st, for_each body st l).
Proof.
  intros Hbody. induction l as [|x l IH]; simpl; [apply additive_Ok|].
  apply (additive_bind (λ st, body st x) (λ st, for_each body st l));
    [apply Hbody|apply IH].
Qed.

Lemma additive_set {A} (m : result A) (set : A → Locals → Locals) (b : bool) :
  (∀ a st, set a st = Locals_merge st (set a Locals_empty)) →
  additive (λ st, if b then a ← m; Ok (set a st) else Ok st).
Proof.
  intros Hset st. destruct b; [|apply additive_Ok].
  destruct m as [a|e]; simpl; [|done]. by rewrite Hset.
Qed.

Ltac solve_set_merge :=
  intros ? [];
  unfold Locals_merge, Locals_empty, set_images, set_labels, set_points,
    set_polygons, set_shapes, set_table; simpl;
  rewrite ?insert_empty, ?(left_id_L ∅ (∪)), <-?insert_union_singleton_l,
    ?option_union_None_l;
  done.

Lemma additive_read_image_node k fmt node :
  additive (λ st, read_image_node k fmt st node).
Proof. apply (additive_set _ (set_images k)). solve_set_merge. Qed.

Lemma additive_read_labels_node k fmt node :
  additive (λ st, read_labels_node k fmt st node).
Proof. apply (additive_set _ (set_labels k)). solve_set_merge. Qed.

Lemma additive_read_rest_key k g j :
  additive (λ st, read_rest_key k g st j).
Proof.
  intros st. unfold read_rest_key, zarr_open.
  repeat match goal with
  | |- context [String.eqb ?a ?b] => destruct (String.eqb a b); simpl
  | |- context [g_points g] => destruct (g_points g); simpl
  | |- context [g_polygons g] => destruct (g_polygons g); simpl
  | |- context [g_shapes g] => destruct (g_shapes g); simpl
  | |- context [g_table g] => destruct (g_table g); simpl
  | |- context [_read_points ?f] => destruct (_read_points f); simpl
  | |- context [_read_polygons ?f] => destruct (_read_polygons f); simpl
  | |- context [_read_shapes ?f] => destruct (_read_shapes f); simpl
  | |- context [fix_table ?t] => destruct (fix_table t); simpl
  end; try done;
  f_equal; destruct st;
  unfold Locals_merge, Locals_empty, set_points, set_polygons, set_shapes,
    set_table; simpl;
  rewrite ?insert_empty, ?(left_id_L ∅ (∪)), <-?insert_union_singleton_l,
    ?option_union_None_l; try done; by destruct l_table0.
Qed.

Lemma additive_read_group fmt kg : additive (λ st, read_group fmt st kg).
Proof.
  destruct kg as [k g]. unfold read_group.
  apply (additive_bind (read_images k fmt (g_image_nodes g))
           (λ st, st ← read_labels k fmt (g_labels_nodes g) st;
                  for_each (read_rest_key k g) st (g_keys g))).
  - unfold read_images. case_bool_decide; [|apply additive_Ok].
    apply additive_for_each. intros node. apply additive_read_image_node.
  - apply (additive_bind (read_labels k fmt (g_labels_nodes g))
             (λ st, for_each (read_rest_key k g) st (g_keys g))).
    + unfold read_labels. destruct (g_labels_nodes g); [|apply additive_Ok].
      case_bool_decide; [|apply additive_Ok].
      apply additive_for_each. intros node. apply additive_read_labels_node.
    + apply additive_for_each. intros j. apply additive_read_rest_key.
Qed.

Lemma additive_read_store fmt store :
  additive (λ st, for_each (read_group fmt) st store).
Proof. apply additive_for_each. intros kg. apply additive_read_group. Qed.

(** X5: reading a store made of two parts is reading the first part, then
    the second part, and merging the two datasets, the entries and the
    table of the second part replacing those of the first; a failure in
    the first part is the failure of the whole, and otherwise a failure in
    the second part is. *)
Theorem read_zarr_app fmt store1 store2 :
  read_zarr fmt (store1 ++ store2) =
    (sd1 ← read_zarr fmt store1;
     sd2 ← read_zarr fmt store2;
     Ok (SpatialData_merge sd1 sd2)).
Proof.
  unfold read_zarr. rewrite for_each_app.
  destruct (for_each (read_group fmt) Locals_empty store1) as [st1|e1];
    simpl; [|done].
  rewrite (additive_read_store fmt store2 st1).
  by destruct (for_each (read_group fmt) Locals_empty store2) as [st2|e2].
Qed.

(** *** Where the entries of the dataset come from *)

Lemma from_store_empty fmt store : from_store fmt store Locals_empty.
Proof. by repeat split. Qed.

Lemma from_store_image_node fmt store k g node st st' :
  (k, g) ∈ store → node ∈ g_image_nodes g →
  from_store fmt store st →
  read_image_node k fmt st node = Ok st' → from_store fmt store st'.
Proof.
  intros Hg Hnode (Hi & Hl & Hp & Hy & Hs & Ht). unfold read_image_node.
  destruct (existsb _ _ && forallb _ _) eqn:Hcond; [|by intros [= <-]].
  apply andb_true_iff in Hcond as [HM%existsb_isinstance_Multiscales
                                     HL%forallb_not_isinstance_Label].
  intros (e & He & [= <-])%bind_Ok.
  repeat split; try done. simpl. intros k' e'.
  rewrite lookup_insert. case_decide; [|by apply Hi].
  intros [= <-]. subst. by exists g, node.
Qed.

Lemma from_store_labels_node fmt store k g nodes node st st' :
  (k, g) ∈ store → g_labels_nodes g = Some nodes → node ∈ nodes →
  from_store fmt store st →
  read_labels_node k fmt st node = Ok st' → from_store fmt store st'.
Proof.
  intros Hg Hnodes Hnode (Hi & Hl & Hp & Hy & Hs & Ht).
  unfold read_labels_node.
  destruct (existsb _ _ && existsb _ _) eqn:Hcond; [|by intros [= <-]].
  apply andb_true_iff in Hcond as [HM%existsb_isinstance_Multiscales
                                     HL%existsb_isinstance_Label].
  intros (e & He & [= <-])%bind_Ok.
  repeat split; try done. simpl. intros k' e'.
  rewrite lookup_insert. case_decide; [|by apply Hl].
  intros [= <-]. subst. by exists g, nodes, node.
Qed.

Lemma from_store_rest_key fmt store k g j st st' :
  (k, g) ∈ store → j ∈ g_keys g →
  from_store fmt store st →
  read_rest_key k g st j = Ok st' → from_store fmt store st'.
Proof.
  intros Hg Hj Hst. unfold read_rest_key. simpl.
  intros (st1 & H1 & (st2 & H2 & (st3 & H3 & H4)%bind_Ok)%bind_Ok)%bind_Ok.
  change ("" +:+ j) with j in *.
  assert (from_store fmt store st1) as Hst1.
  { destruct (String.eqb j "points") eqn:Hj1; [|by injection H1 as <-].
    apply String.eqb_eq in Hj1 as ->.
    apply bind_Ok in H1 as (f & Hf & (a & Ha & [= <-])%bind_Ok).
    unfold zarr_open in Hf.
    destruct (g_points g) as [f'|] eqn:Hgf; [|done]. injection Hf as ->.
    destruct Hst as (Hi & Hl & Hp & Hy & Hs & Ht).
    repeat split; try done. simpl. intros k' a'.
    rewrite lookup_insert. case_decide; [|by apply Hp].
    intros [= <-]. subst. by exists g, f. }
  assert (from_store fmt store st2) as Hst2.
  { destruct (String.eqb j "polygons") eqn:Hj2; [|by injection H2 as <-].
    apply String.eqb_eq in Hj2 as ->.
    apply bind_Ok in H2 as (f & Hf & (a & Ha & [= <-])%bind_Ok).
    unfold zarr_open in Hf.
    destruct (g_polygons g) as [f'|] eqn:Hgf; [|done]. injection Hf as ->.
    destruct Hst1 as (Hi & Hl & Hp & Hy & Hs & Ht).
    repeat split; try done. simpl. intros k' a'.
    rewrite lookup_insert. case_decide; [|by apply Hy].
    intros [= <-]. subst. by exists g, f. }
  assert (from_store fmt store st3) as Hst3.
  { destruct (String.eqb j "shapes") eqn:Hj3; [|by injection H3 as <-].
    apply String.eqb_eq in Hj3 as ->.
    apply bind_Ok in H3 as (f & Hf & (a & Ha & [= <-])%bind_Ok).
    unfold zarr_open in Hf.
    destruct (g_shapes g) as [f'|] eqn:Hgf; [|done]. injection Hf as ->.
    destruct Hst2 as (Hi & Hl & Hp & Hy & Hs & Ht).
    repeat split; try done. simpl. intros k' a'.
    rewrite lookup_insert. case_decide; [|by apply Hs].
    intros [= <-]. subst. by exists g, f. }
  destruct (String.eqb j "table") eqn:Hj4; [|by injection H4 as <-].
  apply String.eqb_eq in Hj4 as ->.
  apply bind_Ok in H4 as (t & Hload & (t' & Hfix & [= <-])%bind_Ok).
  destruct Hst3 as (Hi & Hl & Hp & Hy & Hs & Ht).
  repeat split; try done. simpl. intros t'' [= <-]. by exists k, g, t.
Qed.

Lemma from_store_group fmt store k g st st' :
  (k, g) ∈ store → from_store fmt store st →
  read_group fmt st (k, g) = Ok st' → from_store fmt store st'.
Proof.
  intros Hg Hst. unfold read_group.
  intros (st1 & H1 & (st2 & H2 & H3)%bind_Ok)%bind_Ok.
  assert (from_store fmt store st1) as Hst1.
  { revert H1. unfold read_images. case_bool_decide; [|by intros [= <-]].
    apply (for_each_invariant (from_store fmt store)); [|done].
    intros a node a' Hnode Ha. by apply (from_store_image_node _ _ _ g). }
  assert (from_store fmt store st2) as Hst2.
  { revert H2. unfold read_labels.
    destruct (g_labels_nodes g) as [nodes|] eqn:Hnodes; [|by intros [= <-]].
    case_bool_decide; [|by intros [= <-]].
    apply (for_each_invariant (from_store fmt store)); [|done].
    intros a node a' Hnode Ha.
    by apply (from_store_labels_node _ _ _ g nodes). }
  revert H3. apply (for_each_invariant (from_store fmt store)); [|done].
  intros a j a' Hj Ha. by apply (from_store_rest_key _ _ _ g).
Qed.

Lemma from_store_read fmt store st :
  for_each (read_group fmt) Locals_empty store = Ok st →
  from_store fmt store st.
Proof.
  apply (for_each_invariant (from_store fmt store));
    [|apply from_store_empty].
  intros a [k g] a' Hkg Ha. by apply from_store_group.
Qed.

(** X6: every image of the returned dataset was read from a node of the
    group of that name that declares the multiscale marker and no label
    marker, and every label from a node at the "labels" sub-path of the
    group of that name that declares both markers. *)
Theorem read_zarr_images_labels_sound fmt store sd :
  read_zarr fmt store = Ok sd →
  (∀ k e, images sd !! k = Some e →
     ∃ g node, (k, g) ∈ store ∧ node ∈ g_image_nodes g ∧
               declares_multiscales node ∧ ¬ declares_label node ∧
               _read_multiscale node fmt = Ok e) ∧
  (∀ k e, labels sd !! k = Some e →
     ∃ g nodes node, (k, g) ∈ store ∧ g_labels_nodes g = Some nodes ∧
               node ∈ nodes ∧
               declares_multiscales node ∧ declares_label node ∧
               _read_multiscale node fmt = Ok e).
Proof.
  unfold read_zarr. intros (st & Hst & [= <-])%bind_Ok. simpl.
  apply from_store_read in Hst as (Hi & Hl & _). by split.
Qed.

(** X7: every points, polygons and shapes entry of the returned dataset
    is what the reader of that kind returns on the child of that key of the
    group of that name, and the table of the dataset is the table of a
    "table" child of some group, with its attributes completed. *)
Theorem read_zarr_children_sound fmt store sd :
  read_zarr fmt store = Ok sd →
  (∀ k a, points sd !! k = Some a →
     ∃ g f, (k, g) ∈ store ∧ "points" ∈ g_keys g ∧
            g_points g = Some f ∧ _read_points f = Ok a) ∧
  (∀ k p, polygons sd !! k = Some p →
     ∃ g f, (k, g) ∈ store ∧ "polygons" ∈ g_keys g ∧
            g_polygons g = Some f ∧ _read_polygons f = Ok p) ∧
  (∀ k a, shapes sd !! k = Some a →
     ∃ g f, (k, g) ∈ store ∧ "shapes" ∈ g_keys g ∧
            g_shapes g = Some f ∧ _read_shapes f = Ok a) ∧
  (∀ t', table sd = Some t' →
     ∃ k g t, (k, g) ∈ store ∧ "table" ∈ g_keys g ∧
              g_table g = Ok t ∧ fix_table t = Ok t').
Proof.
  unfold read_zarr. intros (st & Hst & [= <-])%bind_Ok. simpl.
  by apply from_store_read in Hst as (_ & _ & Hp & Hy & Hs & Ht).
Qed.

(** *** The order of the groups *)

Lemma read_store_cons fmt kg store :
  for_each (read_group fmt) Locals_empty (kg :: store) =
    (st1 ← read_group fmt Locals_empty kg;
     st2 ← for_each (read_group fmt) Locals_empty store;
     Ok (Locals_merge st1 st2)).
Proof.
  simpl. destruct (read_group fmt Locals_empty kg) as [st1|e]; simpl; [|done].
  apply (additive_read_store fmt store st1).
Qed.

(** Read alone, a group fills the mappings under its own name only. *)
Lemma read_group_names fmt k g st :
  read_group fmt Locals_empty (k, g) = Ok st →
  ∀ k', k' ≠ k →
    l_images st !! k' = None ∧ l_labels st !! k' = None ∧
    l_points st !! k' = None ∧ l_polygons st !! k' = None ∧
    l_shapes st !! k' = None.
Proof.
  intros Hst k' Hk'.
  assert (from_store fmt [(k, g)] st) as (Hi & Hl & Hp & Hy & Hs & _).
  { apply (from_store_group fmt _ k g Locals_empty); [by left| |done].
    apply from_store_empty. }
  repeat split; apply eq_None_not_Some; intros [x Hx].
  - apply Hi in Hx as (g' & ? & Hin%list_elem_of_singleton & _). congruence.
  - apply Hl in Hx as (g' & ? & ? & Hin%list_elem_of_singleton & _).
    congruence.
  - apply Hp in Hx as (g' & ? & Hin%list_elem_of_singleton & _). congruence.
  - apply Hy in Hx as (g' & ? & Hin%list_elem_of_singleton & _). congruence.
  - apply Hs in Hx as (g' & ? & Hin%list_elem_of_singleton & _). congruence.
Qed.

Lemma same_mappings_refl st : same_mappings st st.
Proof. by repeat split. Qed.

Lemma same_mappings_trans st1 st2 st3 :
  same_mappings st1 st2 → same_mappings st2 st3 → same_mappings st1 st3.
Proof.
  intros (? & ? & ? & ? & ?) (? & ? & ? & ? & ?). repeat split; congruence.
Qed.

Lemma same_mappings_merge st later later' :
  same_mappings later later' →
  same_mappings (Locals_merge st later) (Locals_merge st later').
Proof.
  intros (? & ? & ? & ? & ?). unfold Locals_merge.
  repeat split; simpl; congruence.
Qed.

Lemma union_swap {V} (m1 m2 m3 : gmap string V) :
  (∀ k, m1 !! k = None ∨ m2 !! k = None) →
  (m3 ∪ m2) ∪ m1 = (m3 ∪ m1) ∪ m2.
Proof.
  intros Hdisj. rewrite <-!(assoc_L (∪)). f_equal.
  apply map_union_comm, map_disjoint_spec.
  intros k x y Hx Hy. destruct (Hdisj k); congruence.
Qed.

Lemma same_mappings_swap fmt k1 g1 k2 g2 st1 st2 st :
  k1 ≠ k2 →
  read_group fmt Locals_empty (k1, g1) = Ok st1 →
  read_group fmt Locals_empty (k2, g2) = Ok st2 →
  same_mappings (Locals_merge st1 (Locals_merge st2 st))
                (Locals_merge st2 (Locals_merge st1 st)).
Proof.
  intros Hne H1 H2.
  pose proof (read_group_names _ _ _ _ H1) as N1.
  pose proof (read_group_names _ _ _ _ H2) as N2.
  unfold Locals_merge. repeat split; simpl; apply union_swap; intros k;
    (destruct (decide (k = k1)) as [->|Hk];
     [right; by apply N2|left; by apply N1]).
Qed.

Lemma read_store_permutation fmt store store' :
  store ≡ₚ store' → NoDup store.*1 →
  ∀ st, for_each (read_group fmt) Locals_empty store = Ok st →
  ∃ st', for_each (read_group fmt) Locals_empty store' = Ok st' ∧
         same_mappings st st'.
Proof.
  induction 1 as [|kg l l' Hperm IH|[k2 g2] [k1 g1] l|l l' l'' H1 IH1 H2 IH2];
    intros Hnodup st.
  - intros [= <-]. exists Locals_empty. split; [done|apply same_mappings_refl].
  - rewrite !read_store_cons.
    intros (st1 & Hkg & (st2 & Hl & [= <-])%bind_Ok)%bind_Ok.
    apply NoDup_cons in Hnodup as [_ Hnodup].
    destruct (IH Hnodup _ Hl) as (st2' & Hl' & Hsame).
    rewrite Hkg. simpl. rewrite Hl'. simpl. eexists. split; [done|].
    by apply same_mappings_merge.
  - rewrite !read_store_cons.
    intros (st1 & Hg1 & (st23 & H23 & [= <-])%bind_Ok)%bind_Ok.
    apply bind_Ok in H23 as (st2 & Hg2 & (st3 & Hl & [= <-])%bind_Ok).
    rewrite Hg2, Hg1, Hl. simpl. eexists. split; [done|].
    apply (same_mappings_swap fmt k1 g1 k2 g2); [|done..].
    simpl in Hnodup. apply NoDup_cons in Hnodup as [Hnotin _].
    intros ->. apply Hnotin. left.
  - intros Hst. destruct (IH1 Hnodup _ Hst) as (st' & Hst' & Hsame).
    assert (NoDup l'.*1) as Hnodup' by by rewrite <-H1.
    destruct (IH2 Hnodup' _ Hst') as (st'' & Hst'' & Hsame').
    exists st''. split; [done|]. by apply (same_mappings_trans _ st').
Qed.

(** X8: when the top-level groups have pairwise distinct names, the five
    mappings of the returned dataset do not depend on the order in which
    the store enumerates the groups: a read of the groups in another order
    returns too, with the same images, labels, points, polygons and
    shapes. (The table does depend on the order.) *)
Theorem read_zarr_order_independent fmt store store' sd :
  store ≡ₚ store' → NoDup store.*1 →
  read_zarr fmt store = Ok sd →
  ∃ sd', read_zarr fmt store' = Ok sd' ∧
         images sd' = images sd ∧ labels sd' = labels sd ∧
         points sd' = points sd ∧ polygons sd' = polygons sd ∧
         shapes sd' = shapes sd.
Proof.
  intros Hperm Hnodup. unfold read_zarr.
  intros (st & Hst & [= <-])%bind_Ok.
  destruct (read_store_permutation fmt _ _ Hperm Hnodup _ Hst)
    as (st' & Hst' & (? & ? & ? & ? & ?)).
  rewrite Hst'. simpl. eexists. split; [done|]. by repeat split.
Qed.

(** *** What a successful read holds *)

Lemma read_group_merge_inv fmt st kg st' :
  read_group fmt st kg = Ok st' →
  ∃ later, read_group fmt Locals_empty kg = Ok later ∧
           st' = Locals_merge st later.
Proof.
  rewrite (additive_read_group fmt kg st).
  intros (later & Hlater & [= <-])%bind_Ok. by exists later.
Qed.

(** A group leaves the entries of the other names as they are. *)
Lemma read_group_other_names fmt st k g st' k' :
  read_group fmt st (k, g) = Ok st' → k' ≠ k →
  l_images st' !! k' = l_images st !! k' ∧
  l_labels st' !! k' = l_labels st !! k' ∧
  l_points st' !! k' = l_points st !! k' ∧
  l_polygons st' !! k' = l_polygons st !! k' ∧
  l_shapes st' !! k' = l_shapes st !! k'.
Proof.
  intros (later & Hlater & ->)%read_group_merge_inv Hk'.
  destruct (read_group_names _ _ _ _ Hlater k' Hk') as (? & ? & ? & ? & ?).
  unfold Locals_merge. simpl. repeat split; by apply lookup_union_r.
Qed.

Lemma for_each_reaches {A B} (P : A → Prop) (body : A → B → result A) l x :
  x ∈ l →
  (∀ a a', body a x = Ok a' → P a') →
  (∀ a y a', y ∈ l → P a → body a y = Ok a' → P a') →
  ∀ a a', for_each body a l = Ok a' → P a'.
Proof.
  induction l as [|y l IH]; intros Hin Hx Hkeep a a'.
  - by apply elem_of_nil in Hin.
  - simpl. intros (a1 & Hy & Hl)%bind_Ok.
    apply elem_of_cons in Hin as [->|Hin'].
    + revert Hl. apply for_each_invariant; [|by apply (Hx a)].
      intros a0 y0 a0' Hy0. apply Hkeep. by right.
    + apply (IH Hin' Hx
               (λ a0 y0 a0' Hy0, Hkeep a0 y0 a0' (list_elem_of_further _ _ _ Hy0))
               a1 a' Hl).
Qed.

(** What the key [j] of a group does to the points, polygons and shapes
    mappings. *)
Lemma read_rest_key_children k g st j st' :
  read_rest_key k g st j = Ok st' →
  (if decide (j = "points")
   then ∃ f a, g_points g = Some f ∧ _read_points f = Ok a ∧
               l_points st' = <[k := a]> (l_points st)
   else l_points st' = l_points st) ∧
  (if decide (j = "polygons")
   then ∃ f p, g_polygons g = Some f ∧ _read_polygons f = Ok p ∧
               l_polygons st' = <[k := p]> (l_polygons st)
   else l_polygons st' = l_polygons st) ∧
  (if decide (j = "shapes")
   then ∃ f a, g_shapes g = Some f ∧ _read_shapes f = Ok a ∧
               l_shapes st' = <[k := a]> (l_shapes st)
   else l_shapes st' = l_shapes st).
Proof.
  unfold read_rest_key, zarr_open. simpl. change ("" +:+ j) with j.
  intros Hr.
  destruct (g_points g) as [fp|], (g_polygons g) as [fy|],
    (g_shapes g) as [fs|];
    inv_result; simpl in *;
    repeat match goal with
    | H : String.eqb _ _ = true |- _ => apply String.eqb_eq in H; subst
    | H : String.eqb _ _ = false |- _ => apply String.eqb_neq in H
    end;
    try done;
    repeat case_decide; try done; repeat split; eauto.
Qed.

(** X9: when the top-level groups have pairwise distinct names and the
    read returns, a group that lists the key "points", "polygons" or
    "shapes" has its entry in the mapping of that kind under its own name,
    and the entry is what the reader of that kind returns on the child. *)
Theorem read_zarr_children_complete fmt store k g sd :
  NoDup store.*1 → (k, g) ∈ store →
  read_zarr fmt store = Ok sd →
  ("points" ∈ g_keys g →
   ∃ f a, g_points g = Some f ∧ _read_points f = Ok a ∧
          points sd !! k = Some a) ∧
  ("polygons" ∈ g_keys g →
   ∃ f p, g_polygons g = Some f ∧ _read_polygons f = Ok p ∧
          polygons sd !! k = Some p) ∧
  ("shapes" ∈ g_keys g →
   ∃ f a, g_shapes g = Some f ∧ _read_shapes f = Ok a ∧
          shapes sd !! k = Some a).
Proof.
  intros Hnodup Hin. unfold read_zarr.
  intros (st & Hst & [= <-])%bind_Ok. simpl.
  apply list_elem_of_split in Hin as (pre & post & ->).
  rewrite for_each_app in Hst.
  apply bind_Ok in Hst as (st0 & _ & Hst). simpl in Hst.
  apply bind_Ok in Hst as (st1 & Hg & Hpost).
  rewrite fmap_app, fmap_cons in Hnodup. simpl in Hnodup.
  apply NoDup_app in Hnodup as (_ & _ & [Hk _]%NoDup_cons).
  assert (∀ st', for_each (read_group fmt) st1 post = Ok st' →
            l_points st' !! k = l_points st1 !! k ∧
            l_polygons st' !! k = l_polygons st1 !! k ∧
            l_shapes st' !! k = l_shapes st1 !! k) as Hkeep.
  { intros st'.
    apply (for_each_invariant
             (λ a, l_points a !! k = l_points st1 !! k ∧
                   l_polygons a !! k = l_polygons st1 !! k ∧
                   l_shapes a !! k = l_shapes st1 !! k)); [|done].
    intros a [k' g'] a' Hkg (Hp & Hy & Hs) Hstep.
    assert (k ≠ k') as Hne.
    { intros ->. apply Hk. apply list_elem_of_fmap. by exists (k', g'). }
    destruct (read_group_other_names _ _ _ _ _ k Hstep Hne)
      as (_ & _ & Hp' & Hy' & Hs').
    repeat split; congruence. }
  destruct (Hkeep _ Hpost) as (Hp & Hy & Hs). rewrite Hp, Hy, Hs.
  clear Hkeep Hpost Hp Hy Hs.
  unfold read_group in Hg.
  apply bind_Ok in Hg as (sta & _ & (stb & _ & Hkeys)%bind_Ok).
  repeat split.
  - intros Hj. revert Hkeys.
    apply (for_each_reaches
             (λ a, ∃ f x, g_points g = Some f ∧ _read_points f = Ok x ∧
                          l_points a !! k = Some x) _ _ "points"); [done|..].
    + intros a a' (Hp & _)%read_rest_key_children.
      rewrite decide_True in Hp by done.
      destruct Hp as (f & x & ? & ? & ->). exists f, x.
      by rewrite lookup_insert_eq.
    + intros a j a' _ (f & x & Hf & Hx & Ha) (Hp & _)%read_rest_key_children.
      exists f, x. split; [done|]. split; [done|].
      case_decide; [|congruence].
      destruct Hp as (f' & x' & Hf' & Hx' & ->).
      rewrite lookup_insert_eq. congruence.
  - intros Hj. revert Hkeys.
    apply (for_each_reaches
             (λ a, ∃ f x, g_polygons g = Some f ∧ _read_polygons f = Ok x ∧
                          l_polygons a !! k = Some x) _ _ "polygons");
      [done|..].
    + intros a a' (_ & Hp & _)%read_rest_key_children.
      rewrite decide_True in Hp by done.
      destruct Hp as (f & x & ? & ? & ->). exists f, x.
      by rewrite lookup_insert_eq.
    + intros a j a' _ (f & x & Hf & Hx & Ha)
        (_ & Hp & _)%read_rest_key_children.
      exists f, x. split; [done|]. split; [done|].
      case_decide; [|congruence].
      destruct Hp as (f' & x' & Hf' & Hx' & ->).
      rewrite lookup_insert_eq. congruence.
  - intros Hj. revert Hkeys.
    apply (for_each_reaches
             (λ a, ∃ f x, g_shapes g = Some f ∧ _read_shapes f = Ok x ∧
                          l_shapes a !! k = Some x) _ _ "shapes"); [done|..].
    + intros a a' (_ & _ & Hp)%read_rest_key_children.
      rewrite decide_True in Hp by done.
      destruct Hp as (f & x & ? & ? & ->). exists f, x.
      by rewrite lookup_insert_eq.
    + intros a j a' _ (f & x & Hf & Hx & Ha)
        (_ & _ & Hp)%read_rest_key_children.
      exists f, x. split; [done|]. split; [done|].
      case_decide; [|congruence].
      destruct Hp as (f' & x' & Hf' & Hx' & ->).
      rewrite lookup_insert_eq. congruence.
Qed.

(** *** Several nodes in one pass *)

Lemma read_image_node_cases k fmt st node st' :
  read_image_node k fmt st node = Ok st' →
  (declares_multiscales node ∧ ¬ declares_label node ∧
   ∃ e, _read_multiscale node fmt = Ok e ∧ st' = set_images k e st) ∨
  (¬ (declares_multiscales node ∧ ¬ declares_label node) ∧ st' = st).
Proof.
  unfold read_image_node.
  destruct (existsb _ _ && forallb _ _) eqn:Hcond.
  - apply andb_true_iff in Hcond as [HM%existsb_isinstance_Multiscales
                                       HL%forallb_not_isinstance_Label].
    intros (e & He & [= <-])%bind_Ok. left. eauto.
  - intros [= <-]. right. split; [|done]. intros [HM HL].
    apply existsb_isinstance_Multiscales in HM.
    apply forallb_not_isinstance_Label in HL.
    rewrite HM, HL in Hcond. done.
Qed.

Lemma read_labels_node_cases k fmt st node st' :
  read_labels_node k fmt st node = Ok st' →
  (declares_multiscales node ∧ declares_label node ∧
   ∃ e, _read_multiscale node fmt = Ok e ∧ st' = set_labels k e st) ∨
  (¬ (declares_multiscales node ∧ declares_label node) ∧ st' = st).
Proof.
  unfold read_labels_node.
  destruct (existsb _ _ && existsb _ _) eqn:Hcond.
  - apply andb_true_iff in Hcond as [HM%existsb_isinstance_Multiscales
                                       HL%existsb_isinstance_Label].
    intros (e & He & [= <-])%bind_Ok. left. eauto.
  - intros [= <-]. right. split; [|done]. intros [HM HL].
    apply existsb_isinstance_Multiscales in HM.
    apply existsb_isinstance_Label in HL.
    rewrite HM, HL in Hcond. done.
Qed.

Lemma read_image_node_skip k fmt st node :
  ¬ (declares_multiscales node ∧ ¬ declares_label node) →
  read_image_node k fmt st node = Ok st.
Proof.
  intros Hno. unfold read_image_node.
  destruct (existsb _ _ && forallb _ _) eqn:Hcond; [|done].
  apply andb_true_iff in Hcond as [HM%existsb_isinstance_Multiscales
                                     HL%forallb_not_isinstance_Label].
  by destruct Hno.
Qed.

Lemma read_labels_node_skip k fmt st node :
  ¬ (declares_multiscales node ∧ declares_label node) →
  read_labels_node k fmt st node = Ok st.
Proof.
  intros Hno. unfold read_labels_node.
  destruct (existsb _ _ && existsb _ _) eqn:Hcond; [|done].
  apply andb_true_iff in Hcond as [HM%existsb_isinstance_Multiscales
                                     HL%existsb_isinstance_Label].
  by destruct Hno.
Qed.

Lemma for_each_skip {A B} (body : A → B → result A) l a :
  Forall (λ x, ∀ a, body a x = Ok a) l → for_each body a l = Ok a.
Proof.
  induction 1 as [|x l Hx _ IH]; simpl; [done|]. by rewrite Hx.
Qed.

(** X10: in the pass over the image nodes of a group, the images mapping
    ends with the element of the last node that declares the multiscale
    marker and no label marker, under the name of the group, whatever
    such nodes came before it; and when no node is of that kind the pass
    returns the state it was given, whether or not the nodes can be
    read. *)
Theorem read_images_last_wins k fmt st :
  (∀ pre node post st',
     declares_multiscales node → ¬ declares_label node →
     Forall (λ n, ¬ (declares_multiscales n ∧ ¬ declares_label n)) post →
     read_images k fmt (pre ++ node :: post)%list st = Ok st' →
     ∃ e, _read_multiscale node fmt = Ok e ∧
          l_images st' = <[k := e]> (l_images st)) ∧
  (∀ nodes,
     Forall (λ n, ¬ (declares_multiscales n ∧ ¬ declares_label n)) nodes →
     read_images k fmt nodes st = Ok st).
Proof.
  split.
  - intros pre node post st' HM HL Hpost. unfold read_images.
    rewrite bool_decide_eq_true_2
      by (rewrite length_app; simpl; lia).
    rewrite for_each_app.
    intros (st1 & Hpre & Hrest)%bind_Ok. simpl in Hrest.
    apply bind_Ok in Hrest as (st2 & Hnode & Hrest).
    rewrite for_each_skip in Hrest.
    2:{ eapply Forall_impl; [exact Hpost|]. intros n Hn a.
        by apply read_image_node_skip. }
    injection Hrest as <-.
    assert (l_images st1 = l_images st ∨
            ∃ e, l_images st1 = <[k := e]> (l_images st)) as Hst1.
    { revert Hpre.
      apply (for_each_invariant
               (λ a, l_images a = l_images st ∨
                     ∃ e, l_images a = <[k := e]> (l_images st)));
        [|by left].
      intros a n a' _ Ha
        [(_ & _ & e & _ & ->)|[_ ->]]%read_image_node_cases; [|done].
      right. exists e. simpl. destruct Ha as [->|[e' ->]]; [done|].
      by rewrite insert_insert_eq. }
    apply read_image_node_cases in Hnode
      as [(_ & _ & e & He & ->)|[Hno _]]; [|by destruct Hno].
    exists e. split; [done|]. simpl.
    destruct Hst1 as [->|[e' ->]]; [done|]. by rewrite insert_insert_eq.
  - intros nodes Hnodes. unfold read_images. case_bool_decide; [|done].
    apply for_each_skip. eapply Forall_impl; [exact Hnodes|].
    intros n Hn a. by apply read_image_node_skip.
Qed.

(** X11: in the pass over the nodes at the "labels" sub-path of a group,
    the labels mapping ends with the element of the last node that
    declares both markers, under the name of the group; and when no node
    is of that kind the pass returns the state it was given. *)
Theorem read_labels_last_wins k fmt st :
  (∀ pre node post st',
     declares_multiscales node → declares_label node →
     Forall (λ n, ¬ (declares_multiscales n ∧ declares_label n)) post →
     read_labels k fmt (Some (pre ++ node :: post)%list) st = Ok st' →
     ∃ e, _read_multiscale node fmt = Ok e ∧
          l_labels st' = <[k := e]> (l_labels st)) ∧
  (∀ nodes,
     Forall (λ n, ¬ (declares_multiscales n ∧ declares_label n)) nodes →
     read_labels k fmt (Some nodes) st = Ok st).
Proof.
  split.
  - intros pre node post st' HM HL Hpost. unfold read_labels.
    rewrite bool_decide_eq_true_2
      by (rewrite length_app; simpl; lia).
    rewrite for_each_app.
    intros (st1 & Hpre & Hrest)%bind_Ok. simpl in Hrest.
    apply bind_Ok in Hrest as (st2 & Hnode & Hrest).
    rewrite for_each_skip in Hrest.
    2:{ eapply Forall_impl; [exact Hpost|]. intros n Hn a.
        by apply read_labels_node_skip. }
    injection Hrest as <-.
    assert (l_labels st1 = l_labels st ∨
            ∃ e, l_labels st1 = <[k := e]> (l_labels st)) as Hst1.
    { revert Hpre.
      apply (for_each_invariant
               (λ a, l_labels a = l_labels st ∨
                     ∃ e, l_labels a = <[k := e]> (l_labels st)));
        [|by left].
      intros a n a' _ Ha
        [(_ & _ & e & _ & ->)|[_ ->]]%read_labels_node_cases; [|done].
      right. exists e. simpl. destruct Ha as [->|[e' ->]]; [done|].
      by rewrite insert_insert_eq. }
    apply read_labels_node_cases in Hnode
      as [(_ & _ & e & He & ->)|[Hno _]]; [|by destruct Hno].
    exists e. split; [done|]. simpl.
    destruct Hst1 as [->|[e' ->]]; [done|]. by rewrite insert_insert_eq.
  - intros nodes Hnodes. unfold read_labels. case_bool_decide; [|done].
    apply for_each_skip. eapply Forall_impl; [exact Hnodes|].
    intros n Hn a. by apply read_labels_node_skip.
Qed.

(** *** Failures and groups that hold nothing *)

Lemma read_zarr_raises_group fmt store k g :
  (k, g) ∈ store → (∀ st, raises (read_group fmt st (k, g))) →
  raises (read_zarr fmt store).
Proof.
  intros Hin Hg. unfold read_zarr. apply bind_raises.
  by apply (for_each_raises _ _ (k, g)).
Qed.

(** X12: there is no partial result for images and labels. When a node
    that the pass over the image nodes reads (multiscale marker, no label
    marker), or a node that the pass over the labels nodes reads (both
    markers), cannot be read by [_read_multiscale], the whole read
    raises. *)
Theorem read_zarr_node_failure fmt store k g node :
  (k, g) ∈ store →
  declares_multiscales node → raises (_read_multiscale node fmt) →
  (¬ declares_label node ∧ node ∈ g_image_nodes g) ∨
  (declares_label node ∧
   ∃ nodes, g_labels_nodes g = Some nodes ∧ node ∈ nodes) →
  raises (read_zarr fmt store).
Proof.
  intros Hin HM Hraises Hnode.
  apply (read_zarr_raises_group fmt store k g); [done|].
  intros st. unfold read_group.
  destruct Hnode as [[HL Hnode]|(HL & nodes & Hnodes & Hnode)].
  - apply bind_raises. unfold read_images.
    rewrite bool_decide_eq_true_2.
    2:{ intros Hlen. apply nil_length_inv in Hlen. rewrite Hlen in Hnode.
        by apply elem_of_nil in Hnode. }
    apply (for_each_raises _ _ node); [done|].
    intros a. unfold read_image_node.
    apply existsb_isinstance_Multiscales in HM.
    apply forallb_not_isinstance_Label in HL. rewrite HM, HL. simpl.
    by apply bind_raises.
  - destruct (read_images k fmt (g_image_nodes g) st) as [st1|e1];
      simpl; [|by exists e1].
    apply bind_raises. unfold read_labels. rewrite Hnodes.
    rewrite bool_decide_eq_true_2.
    2:{ intros Hlen. apply nil_length_inv in Hlen. rewrite Hlen in Hnode.
        by apply elem_of_nil in Hnode. }
    apply (for_each_raises _ _ node); [done|].
    intros a. unfold read_labels_node.
    apply existsb_isinstance_Multiscales in HM.
    apply existsb_isinstance_Label in HL. rewrite HM, HL. simpl.
    by apply bind_raises.
Qed.

(** X13: there is no partial result for the children of a group either.
    When a group lists the key "points", "polygons" or "shapes" and
    nothing can be opened at the child or the reader of that kind raises
    on it, or lists the key "table" and the table cannot be loaded or its
    attributes cannot be completed, the whole read raises. *)
Theorem read_zarr_child_failure fmt store k g :
  (k, g) ∈ store →
  ("points" ∈ g_keys g ∧ ∀ f, g_points g = Some f → raises (_read_points f)) ∨
  ("polygons" ∈ g_keys g ∧
   ∀ f, g_polygons g = Some f → raises (_read_polygons f)) ∨
  ("shapes" ∈ g_keys g ∧ ∀ f, g_shapes g = Some f → raises (_read_shapes f)) ∨
  ("table" ∈ g_keys g ∧ ∀ t, g_table g = Ok t → raises (fix_table t)) →
  raises (read_zarr fmt store).
Proof.
  intros Hin [[Hj Hf]|[[Hj Hf]|[[Hj Hf]|[Hj Hf]]]].
  - apply (read_zarr_raises fmt store k g "points"); [done..|].
    intros st. unfold read_rest_key. simpl. apply bind_raises.
    destruct (g_points g) as [f|]; simpl; [|by eexists].
    apply bind_raises. by apply Hf.
  - apply (read_zarr_raises fmt store k g "polygons"); [done..|].
    intros st. unfold read_rest_key. simpl. apply bind_raises.
    destruct (g_polygons g) as [f|]; simpl; [|by eexists].
    apply bind_raises. by apply Hf.
  - apply (read_zarr_raises fmt store k g "shapes"); [done..|].
    intros st. unfold read_rest_key. simpl. apply bind_raises.
    destruct (g_shapes g) as [f|]; simpl; [|by eexists].
    apply bind_raises. by apply Hf.
  - apply (read_zarr_raises fmt store k g "table"); [done..|].
    intros st. unfold read_rest_key. simpl.
    destruct (g_table g) as [t|e]; simpl; [|by eexists].
    apply bind_raises. by apply Hf.
Qed.

Lemma read_rest_key_unknown k g st j :
  j ∉ known_keys → read_rest_key k g st j = Ok st.
Proof.
  unfold known_keys. rewrite !not_elem_of_cons.
  intros (H1 & H2 & H3 & H4 & _).
  unfold read_rest_key. simpl. change ("" +:+ j) with j.
  apply String.eqb_neq in H1, H2, H3, H4.
  by rewrite H1, H2, H3, H4.
Qed.

(** X14: a group none of whose nodes is read as an image or as a label
    and none of whose keys is "points", "polygons", "shapes" or "table"
    leaves no trace: the read of the store is the read of the store
    without that group, even when its nodes or children could not be
    read. *)
Theorem read_zarr_silent_group fmt pre k g post :
  Forall (λ n, ¬ (declares_multiscales n ∧ ¬ declares_label n))
         (g_image_nodes g) →
  (∀ nodes, g_labels_nodes g = Some nodes →
     Forall (λ n, ¬ (declares_multiscales n ∧ declares_label n)) nodes) →
  Forall (λ j, j ∉ known_keys) (g_keys g) →
  read_zarr fmt (pre ++ (k, g) :: post) = read_zarr fmt (pre ++ post).
Proof.
  intros Himages Hlabels Hkeys.
  assert (∀ st, read_group fmt st (k, g) = Ok st) as Hg.
  { intros st. unfold read_group.
    assert (read_images k fmt (g_image_nodes g) st = Ok st) as ->.
    { unfold read_images. case_bool_decide; [|done].
      apply for_each_skip. eapply Forall_impl; [exact Himages|].
      intros n Hn a. by apply read_image_node_skip. }
    simpl.
    assert (read_labels k fmt (g_labels_nodes g) st = Ok st) as ->.
    { unfold read_labels. destruct (g_labels_nodes g) as [nodes|]; [|done].
      case_bool_decide; [|done].
      apply for_each_skip. eapply Forall_impl; [by apply Hlabels|].
      intros n Hn a. by apply read_labels_node_skip. }
    simpl. apply for_each_skip. eapply Forall_impl; [exact Hkeys|].
    intros j Hj a. by apply read_rest_key_unknown. }
  unfold read_zarr. rewrite !for_each_app.
  destruct (for_each (read_group fmt) Locals_empty pre) as [st|e]; [|done].
  change (Ok st ≫= λ a', for_each (read_group fmt) a' ((k, g) :: post))
    with (a' ← read_group fmt st (k, g); for_each (read_group fmt) a' post).
  by rewrite Hg.
Qed.

(** ** Further properties of the readers of points, shapes and polygons *)

(** X15: a shapes element is read exactly when the same group reads as a
    points element and its attributes hold "spatialdata_attrs"; the shapes
    result is the points result with that dict stored in its metadata
    under "spatialdata_attrs". *)
Theorem read_shapes_extends_read_points f a :
  _read_shapes f = Ok a ↔
  ∃ a0 attrs,
    _read_points f = Ok a0 ∧ as_spatialdata_attrs f = Some attrs ∧
    a = set_uns "spatialdata_attrs" (UDict attrs) a0.
Proof.
  unfold _read_shapes, _read_points. split.
  - intros (t & Ht & (attrs & Hattrs & (adata & Hadata & [= <-])%bind_Ok)
             %bind_Ok)%bind_Ok.
    destruct (as_spatialdata_attrs f) as [attrs'|]; [|done].
    injection Hattrs as ->.
    exists (set_uns "transform" (UTransform t) adata), attrs.
    rewrite Ht, Hadata. done.
  - intros (a0 & attrs & (t & Ht & (adata & Hadata & [= <-])%bind_Ok)%bind_Ok
             & Hattrs & ->).
    rewrite Ht, Hattrs, Hadata. done.
Qed.

(** X16: the table that [_read_shapes] returns is the stored table with
    two metadata entries written: "transform" holds the transformation
    decoded from the first description and "spatialdata_attrs" holds the
    dict of the attributes; the rows and every other metadata entry are
    those of the stored table, and entries that the stored table had under
    these two keys are replaced. *)
Theorem read_shapes_metadata f a :
  _read_shapes f = Ok a →
  ∃ adata t attrs,
    as_anndata f = Ok adata ∧
    first_transformation (as_multiscales f) = Ok t ∧
    as_spatialdata_attrs f = Some attrs ∧
    adata_rows a = adata_rows adata ∧
    uns a !! "transform" = Some (UTransform t) ∧
    uns a !! "spatialdata_attrs" = Some (UDict attrs) ∧
    ∀ key, key ≠ "transform" → key ≠ "spatialdata_attrs" →
           uns a !! key = uns adata !! key.
Proof.
  unfold _read_shapes.
  intros (t & Ht & (attrs & Hattrs & (adata & Hadata & [= <-])%bind_Ok)
           %bind_Ok)%bind_Ok.
  destruct (as_spatialdata_attrs f) as [attrs'|]; [|done].
  injection Hattrs as ->.
  exists adata, t, attrs. repeat split; try done; simpl.
  - by rewrite lookup_insert_ne, lookup_insert_eq.
  - by rewrite lookup_insert_eq.
  - intros key H1 H2. by rewrite !lookup_insert_ne.
Qed.

Lemma assert_Ok b msg u : assert b msg = Ok u → b = true.
Proof. by destruct b. Qed.

(** X17: the helper [_get_transform_from_group] returns exactly on
    attributes with one multiscale that has one dataset with one
    transformation description that decodes; on those attributes the
    lookup that the readers use returns the same transformation. *)
Theorem get_transform_from_group_exactly_one multiscales t :
  _get_transform_from_group multiscales = Ok t ↔
  ∃ d, multiscales =
         Some [ {| me_datasets :=
                     [ {| de_coordinateTransformations := Some [d] |} ] |} ] ∧
       get_transformation_from_dict d = Ok t ∧
       first_transformation multiscales = Ok t.
Proof.
  unfold _get_transform_from_group, first_transformation. split.
  - intros (ms & Hms & (_ & Hlen1%assert_Ok & (m0 & Hm0 & (_ & Hlen2%assert_Ok
      & (d0 & Hd0 & (cts & Hcts & (ts & Hts & (_ & Hlen3%assert_Ok & Ht)
      %bind_Ok)%bind_Ok)%bind_Ok)%bind_Ok)%bind_Ok)%bind_Ok)%bind_Ok)%bind_Ok.
    apply bool_decide_eq_true in Hlen1, Hlen2, Hlen3.
    destruct multiscales as [ms'|]; [|done]. injection Hms as ->.
    destruct ms as [|m [|m' ms]]; try done. injection Hm0 as ->.
    destruct m0 as [ds]. simpl in *.
    destruct ds as [|d1 [|d1' ds]]; try done. injection Hd0 as ->.
    destruct d0 as [c]. simpl in *.
    destruct c as [c|]; [|done]. injection Hcts as ->.
    destruct cts as [|d [|d' cts]].
    + injection Hts as <-. done.
    + simpl in Hts.
      destruct (get_transformation_from_dict d) as [t'|] eqn:Hd; [|done].
      injection Hts as <-. injection Ht as ->.
      exists d. repeat split; [done|]. unfold getindex. simpl. by rewrite Hd.
    + simpl in Hts.
      destruct (get_transformation_from_dict d) as [t'|]; [|done].
      destruct (get_transformation_from_dict d') as [t''|]; [|done].
      simpl in Hts.
      destruct (mapM get_transformation_from_dict cts); [|done].
      injection Hts as <-. done.
  - intros (d & -> & Hd & _). simpl. unfold getindex. simpl.
    by rewrite Hd.
Qed.

Lemma concat_length_uniform {A} (l : list (list A)) m :
  Forall (λ row, length row = m) l → length (concat l) = length l * m.
Proof.
  induction 1 as [|row l Hrow _ IH]; simpl; [done|].
  rewrite length_app. lia.
Qed.

(** X18: the offsets array splits exactly when it has an even number of
    items along its first axis; the two parts, one after the other, are
    the flattened array, and for an array whose items all have the same
    length the two parts have the same length. *)
Theorem split_offsets_halves a :
  (returns (split_offsets a) ↔ ∃ n, length a = 2 * n) ∧
  ∀ o1 o2, split_offsets a = Ok (o1, o2) →
    (o1 ++ o2)%list = concat a ∧
    ∀ m, Forall (λ row, length row = m) a → length o1 = length o2.
Proof.
  unfold split_offsets. split.
  - case_bool_decide as Heven.
    + split; [|by eexists]. intros _. exists (length a `div` 2).
      pose proof (Nat.div_mod_eq (length a) 2). lia.
    + split; [by intros [? ?]|]. intros [n Hn]. exfalso. apply Heven.
      rewrite Hn. by rewrite Nat.mul_comm, Nat.Div0.mod_mul.
  - intros o1 o2. case_bool_decide as Heven; [|done].
    pose proof (Nat.div_mod_eq (length a) 2) as Hdiv.
    remember (length a `div` 2) as h eqn:Hh. clear Hh.
    intros [= <- <-]. split.
    + by rewrite <-concat_app, take_drop.
    + intros m Hrows.
      rewrite (concat_length_uniform _ m) by by apply Forall_take.
      rewrite (concat_length_uniform _ m) by by apply Forall_drop.
      rewrite length_take, length_drop. f_equal. lia.
Qed.

(** ** Further properties of the attributes of the table *)

(** X19: completing the attributes never removes a key: the keys afterward
    are the keys before together with "region", "region_key" and
    "instance_key". *)
Theorem fix_attrs_dom (attrs : gmap string pyval) :
  dom (fix_attrs attrs) = dom attrs ∪ list_to_set table_keys.
Proof.
  apply set_eq. intros k.
  rewrite elem_of_union, elem_of_list_to_set, elem_of_table_keys,
    !elem_of_dom, fix_attrs_lookup.
  repeat case_decide; subst.
  - split; [tauto|]. intros _.
    destruct (attrs !! "region") as [[x|l|a]|]; eauto.
  - split; [tauto|]. intros _. destruct (attrs !! k); eauto.
  - tauto.
Qed.

(** X20: completing the attributes changes nothing exactly when the three
    keys are all present and "region" is not held as an array. *)
Theorem fix_attrs_fixpoint (attrs : gmap string pyval) :
  fix_attrs attrs = attrs ↔
  (∀ k, k ∈ table_keys → is_Some (attrs !! k)) ∧
  ∀ a, attrs !! "region" ≠ Some (PyNdarray a).
Proof.
  split.
  - intros Heq. split.
    + intros k Hk%elem_of_table_keys.
      rewrite <-Heq, fix_attrs_lookup.
      repeat case_decide; [| |tauto].
      * destruct (attrs !! "region") as [[x|l|a]|]; eauto.
      * destruct (attrs !! k); eauto.
    + intros a Ha.
      assert (fix_attrs attrs !! "region" = Some (tolist a)) as Hr
        by (rewrite fix_attrs_lookup; simpl; by rewrite Ha).
      rewrite Heq, Ha in Hr. by destruct a.
  - intros [Hkeys Hregion]. apply map_eq. intros k.
    rewrite fix_attrs_lookup. repeat case_decide; subst.
    + destruct (Hkeys "region") as [v Hv];
        [apply elem_of_table_keys; tauto|].
      rewrite Hv. destruct v; try done. by destruct (Hregion a).
    + destruct (Hkeys k) as [v Hv]; [apply elem_of_table_keys; tauto|].
      by rewrite Hv.
    + done.
Qed.

(** ** Further properties of the returned dataset *)

(** X21: the table of a returned dataset is completed: what it holds under
    [TableModel.ATTRS_KEY], if anything, is a dict with the keys "region",
    "region_key" and "instance_key" whose "region" is not an array. *)
Theorem read_zarr_table_completed fmt store sd t :
  read_zarr fmt store = Ok sd → table sd = Some t →
  uns t !! ATTRS_KEY = None ∨
  ∃ attrs, uns t !! ATTRS_KEY = Some (UDict attrs) ∧
           (∀ k, k ∈ table_keys → is_Some (attrs !! k)) ∧
           ∀ a, attrs !! "region" ≠ Some (PyNdarray a).
Proof.
  unfold read_zarr. intros (st & Hst & [= <-])%bind_Ok. simpl. intros Ht.
  apply from_store_read in Hst as (_ & _ & _ & _ & _ & Htable).
  destruct (Htable _ Ht) as (k & g & t0 & _ & _ & _ & Hfix).
  apply fix_table_Ok_inv in Hfix as [[Hnone ->]|(attrs & Hattrs & ->)];
    [by left|].
  right. exists (fix_attrs attrs). split; [apply lookup_insert_eq|]. split.
  - intros k' Hk'%elem_of_table_keys. rewrite fix_attrs_lookup.
    repeat case_decide; [| |tauto].
    + destruct (attrs !! "region") as [[x|l|a]|]; eauto.
    + destruct (attrs !! k'); eauto.
  - intros a. rewrite fix_attrs_lookup. simpl.
    destruct (attrs !! "region") as [[x|l|a']|]; try done.
    by destruct a'.
Qed.

Lemma read_store_returns_cons fmt kg store :
  returns (for_each (read_group fmt) Locals_empty (kg :: store)) ↔
  returns (read_group fmt Locals_empty kg) ∧
  returns (for_each (read_group fmt) Locals_empty store).
Proof.
  rewrite read_store_cons. split.
  - intros [st (st1 & -> & (st2 & -> & _)%bind_Ok)%bind_Ok].
    split; by eexists.
  - intros [[st1 ->] [st2 ->]]. by eexists.
Qed.

Lemma read_zarr_returns fmt store :
  returns (read_zarr fmt store) ↔
  returns (for_each (read_group fmt) Locals_empty store).
Proof.
  unfold read_zarr. split.
  - intros [sd (st & -> & _)%bind_Ok]. by eexists.
  - intros [st ->]. by eexists.
Qed.

(** X22: whether a group can be read does not depend on the other groups:
    the read of a store returns exactly when, for each of its groups, the
    read of the store that holds this group alone returns. *)
Theorem read_zarr_returns_groupwise fmt store :
  returns (read_zarr fmt store) ↔
  Forall (λ kg, returns (read_zarr fmt [kg])) store.
Proof.
  rewrite read_zarr_returns.
  induction store as [|kg store IH].
  - split; [constructor|]. intros _. by eexists.
  - rewrite read_store_returns_cons, Forall_cons, IH, read_zarr_returns.
    rewrite (read_store_returns_cons fmt kg []).
    split; [intros [? ?]|intros [[? ?] ?]]; repeat split; try done.
    by eexists.
Qed.

Lemma additive_Ok_inv f st st' :
  additive f → f st = Ok st' →
  ∃ later, f Locals_empty = Ok later ∧ st' = Locals_merge st later.
Proof.
  intros Hf. rewrite (Hf st).
  intros (later & Hlater & [= <-])%bind_Ok. by exists later.
Qed.

Lemma additive_read_labels k fmt labels_loc :
  additive (read_labels k fmt labels_loc).
Proof.
  unfold read_labels. destruct labels_loc; [|apply additive_Ok].
  case_bool_decide; [|apply additive_Ok].
  apply additive_for_each. intros node. apply additive_read_labels_node.
Qed.

Lemma additive_read_rest k g :
  additive (λ st, for_each (read_rest_key k g) st (g_keys g)).
Proof. apply additive_for_each. intros j. apply additive_read_rest_key. Qed.

(** The images and labels that a group leaves under its own name. *)
Lemma read_group_own_images_labels fmt st k g st' :
  read_group fmt st (k, g) = Ok st' →
  (Exists (λ n, declares_multiscales n ∧ ¬ declares_label n)
          (g_image_nodes g) →
   is_Some (l_images st' !! k)) ∧
  (∀ nodes, g_labels_nodes g = Some nodes →
     Exists (λ n, declares_multiscales n ∧ declares_label n) nodes →
     is_Some (l_labels st' !! k)).
Proof.
  unfold read_group.
  intros (st1 & H1 & (st2 & H2 & H3)%bind_Ok)%bind_Ok.
  apply (additive_Ok_inv (λ st, for_each (read_rest_key k g) st (g_keys g)))
    in H3 as (d3 & _ & ->); [|apply additive_read_rest].
  split.
  - intros (node & Hnode & HM & HL)%Exists_exists.
    apply (additive_Ok_inv (read_labels k fmt (g_labels_nodes g)))
      in H2 as (d2 & _ & ->); [|apply additive_read_labels].
    simpl. rewrite !lookup_union_is_Some. right. right.
    revert H1. unfold read_images. case_bool_decide as Hlen.
    2:{ destruct (g_image_nodes g); [by apply elem_of_nil in Hnode|].
        simpl in Hlen. lia. }
    apply (for_each_reaches (λ a, is_Some (l_images a !! k)) _ _ node);
      [done|..].
    + intros a a'
        [(_ & _ & e & _ & ->)|[Hno _]]%read_image_node_cases;
        [|by destruct Hno].
      simpl. rewrite lookup_insert_eq. eauto.
    + intros a n a' _ Ha
        [(_ & _ & e & _ & ->)|[_ ->]]%read_image_node_cases; [|done].
      simpl. rewrite lookup_insert_eq. eauto.
  - intros nodes Hnodes (node & Hnode & HM & HL)%Exists_exists.
    simpl. rewrite lookup_union_is_Some. right.
    revert H2. unfold read_labels. rewrite Hnodes.
    case_bool_decide as Hlen.
    2:{ destruct nodes; [by apply elem_of_nil in Hnode|].
        simpl in Hlen. lia. }
    apply (for_each_reaches (λ a, is_Some (l_labels a !! k)) _ _ node);
      [done|..].
    + intros a a'
        [(_ & _ & e & _ & ->)|[Hno _]]%read_labels_node_cases;
        [|by destruct Hno].
      simpl. rewrite lookup_insert_eq. eauto.
    + intros a n a' _ Ha
        [(_ & _ & e & _ & ->)|[_ ->]]%read_labels_node_cases; [|done].
      simpl. rewrite lookup_insert_eq. eauto.
Qed.

Lemma NoDup_names_unique {A} (l : list (string * A)) k x y :
  NoDup l.*1 → (k, x) ∈ l → (k, y) ∈ l → x = y.
Proof.
  induction l as [|[k' z] l IH]; simpl.
  - by intros _ ?%elem_of_nil.
  - intros [Hnotin Hnodup]%NoDup_cons Hx Hy.
    apply elem_of_cons in Hx as [Hx|Hx];
      apply elem_of_cons in Hy as [Hy|Hy].
    + congruence.
    + injection Hx as -> ->. exfalso. apply Hnotin.
      apply list_elem_of_fmap. by exists (k', y).
    + injection Hy as -> ->. exfalso. apply Hnotin.
      apply list_elem_of_fmap. by exists (k', x).
    + by apply IH.
Qed.

(** X23: when the top-level groups have pairwise distinct names and the
    read returns, the dataset has an image under the name of a group
    exactly when some node read at the group declares the multiscale
    marker and no label marker, and a label under that name exactly when
    the group has a "labels" sub-path at which some node declares both
    markers. *)
Theorem read_zarr_images_labels_present fmt store k g sd :
  NoDup store.*1 → (k, g) ∈ store →
  read_zarr fmt store = Ok sd →
  (is_Some (images sd !! k) ↔
   Exists (λ n, declares_multiscales n ∧ ¬ declares_label n)
          (g_image_nodes g)) ∧
  (is_Some (labels sd !! k) ↔
   ∃ nodes, g_labels_nodes g = Some nodes ∧
            Exists (λ n, declares_multiscales n ∧ declares_label n) nodes).
Proof.
  intros Hnodup Hin Hread.
  assert (∀ g', (k, g') ∈ store → g' = g) as Hunique.
  { intros g' Hin'. by apply (NoDup_names_unique store k). }
  pose proof Hread as Hsound. unfold read_zarr in Hsound.
  apply bind_Ok in Hsound as (st & Hst & [= <-]). simpl.
  pose proof (from_store_read _ _ _ Hst) as (Hi & Hl & _).
  apply list_elem_of_split in Hin as (pre & post & ->).
  rewrite for_each_app in Hst.
  apply bind_Ok in Hst as (st0 & _ & Hst). simpl in Hst.
  apply bind_Ok in Hst as (st1 & Hg & Hpost).
  rewrite fmap_app, fmap_cons in Hnodup. simpl in Hnodup.
  apply NoDup_app in Hnodup as (_ & _ & [Hk _]%NoDup_cons).
  assert (l_images st !! k = l_images st1 !! k ∧
          l_labels st !! k = l_labels st1 !! k) as [Hki Hkl].
  { revert Hpost.
    apply (for_each_invariant
             (λ a, l_images a !! k = l_images st1 !! k ∧
                   l_labels a !! k = l_labels st1 !! k)); [|done].
    intros a [k' g'] a' Hkg (Hp & Hy) Hstep.
    assert (k ≠ k') as Hne.
    { intros ->. apply Hk. apply list_elem_of_fmap. by exists (k', g'). }
    destruct (read_group_other_names _ _ _ _ _ k Hstep Hne)
      as (Hp' & Hy' & _).
    split; congruence. }
  destruct (read_group_own_images_labels _ _ _ _ _ Hg) as [Hown_i Hown_l].
  split; split.
  - intros [e He]. apply Hi in He as (g' & node & Hg' & Hnode & HM & HL & _).
    apply Hunique in Hg' as ->. apply Exists_exists. by exists node.
  - intros Hex. rewrite Hki. by apply Hown_i.
  - intros [e He].
    apply Hl in He as (g' & nodes & node & Hg' & Hnodes & Hnode & HM & HL & _).
    apply Hunique in Hg' as ->. exists nodes. split; [done|].
    apply Exists_exists. by exists node.
  - intros (nodes & Hnodes & Hex). rewrite Hkl. by apply (Hown_l nodes).
Qed.

(** ** The geometry type of a polygons element *)

Lemma GeometryType_of_code_value code typ :
  GeometryType_of_code code = Ok typ ↔ code = GeometryType_value typ.
Proof.
  split.
  - unfold GeometryType_of_code.
    repeat case_match; try done; by intros [= <-].
  - intros ->. by destruct typ.
Qed.

Lemma GeometryType_name_inj typ1 typ2 :
  GeometryType_name typ1 = GeometryType_name typ2 → typ1 = typ2.
Proof. by destruct typ1, typ2. Qed.

(** X24: a polygons element that is read stores the code of a geometry
    type between -1 and 7 together with the name of that very type, so
    the stored name determines the stored code: what [_read_polygons]
    decodes with is the type whose name is stored. *)
Theorem read_polygons_type f df geos :
  _read_polygons f = Ok df →
  pa_spatialdata_attrs (ps_attrs f) = Some (Some geos) →
  ∃ typ,
    geometry_type geos = Some (GeometryType_value typ) ∧
    geometry_name geos = Some (GeometryType_name typ) ∧
    (-1 ≤ GeometryType_value typ ≤ 7)%Z ∧
    (∀ typ', geometry_name geos = Some (GeometryType_name typ') →
             typ' = typ) ∧
    ∃ coords offsets geometry,
      from_ragged_array typ coords offsets = Ok geometry ∧
      gdf_columns df = [("geometry", geometry)].
Proof.
  unfold _read_polygons. intros Hread Hattrs. rewrite Hattrs in Hread.
  apply bind_Ok in Hread as (coords & _ & Hread).
  apply bind_Ok in Hread as (a & _ & Hread).
  apply bind_Ok in Hread as (offsets & _ & Hread).
  simpl in Hread.
  apply bind_Ok in Hread as (code & Hcode & Hread).
  apply bind_Ok in Hread as (typ & Htyp & Hread).
  apply bind_Ok in Hread as (name & Hname & Hread).
  apply bind_Ok in Hread as (_ & Heq%assert_Ok & Hread).
  apply bind_Ok in Hread as (t & _ & Hread).
  apply bind_Ok in Hread as (geometry & Hgeometry & [= <-]).
  apply String.eqb_eq in Heq as <-.
  apply GeometryType_of_code_value in Htyp as ->.
  destruct (geometry_type geos) as [c|]; [|done]. injection Hcode as ->.
  destruct (geometry_name geos) as [n|]; [|done]. injection Hname as ->.
  exists typ. repeat split; try done.
  - by destruct typ.
  - by destruct typ.
  - intros typ' [= Hn]. by apply GeometryType_name_inj.
  - by exists coords, offsets, geometry.
Qed.

End Properties.

(** * The model at concrete stores *)

Section Checks.
#[local] Existing Instance demo_externals.

(** Two datasets with two transformations give two levels; two datasets
    with one transformation raise. *)
Lemma read_multiscale_counts_witness :
  (∃ e, _read_multiscale (demo_node [] ["0"; "1"] [[1]; [2]]%Z) demo_fmt = Ok e
        ∧ levels e = 2) ∧
  _read_multiscale (demo_node [] ["0"; "1"] [[1]]%Z) demo_fmt =
    Raise (AssertionError "Expecting one transformation per dataset.").
Proof.
  split.
  - apply (proj1 (read_multiscale_counts
                    (demo_node [] ["0"; "1"] [[1]; [2]]%Z) demo_fmt
                    ["0"; "1"] [Some [1]; Some [2]]%Z [1; 2]%Z
                    eq_refl eq_refl eq_refl));
      [simpl; lia|simpl; lia|repeat constructor].
  - apply (proj2 (read_multiscale_counts
                    (demo_node [] ["0"; "1"] [[1]]%Z) demo_fmt
                    ["0"; "1"] [Some [1]]%Z [1]%Z
                    eq_refl eq_refl eq_refl)); simpl; lia.
Defined.

(** C1 as stated fails for a node whose array does not fit its axes: one
    transformation is parsed for its one dataset, so the two counts are
    equal, and [_read_multiscale] raises, because the node has two axes
    and the array of the dataset three dimensions. *)
Lemma read_multiscale_axes_mismatch :
  let node := demo_node_yx in
  load_Multiscales (specs node) = Some ["0"] ∧
  md_coordinateTransformations (metadata node) = Some [Some [1%Z]] ∧
  parse_transformations [Some [1%Z]] = Ok [1%Z] ∧
  length [1%Z] = length ["0"] ∧
  length (md_axes (metadata node)) = 2 ∧
  ndim (array (zarr node) "0" (version demo_fmt)) = 3 ∧
  _read_multiscale node demo_fmt =
    Raise (ValueError "different number of dimensions on data and dims") ∧
  ¬ returns (_read_multiscale node demo_fmt).
Proof.
  repeat split. intros [e He]. discriminate He.
Defined.

(** A pyramid-only node in the pass over the image nodes is read into the
    images mapping; a node with both markers in the pass over the labels
    nodes is read into the labels mapping. *)
Lemma node_classification_witness :
  let st := Locals_empty in
  read_image_node "sample" demo_fmt st (demo_node [] ["0"] [[1%Z]]) =
    (e ← _read_multiscale (demo_node [] ["0"] [[1%Z]]) demo_fmt;
     Ok (set_images "sample" e st)) ∧
  read_image_node "sample" demo_fmt st (demo_node [Label] ["0"] [[1%Z]]) =
    Ok st ∧
  read_labels_node "sample" demo_fmt st (demo_node [Label] ["0"] [[1%Z]]) =
    (e ← _read_multiscale (demo_node [Label] ["0"] [[1%Z]]) demo_fmt;
     Ok (set_labels "sample" e st)) ∧
  read_labels_node "sample" demo_fmt st (demo_node [] ["0"] [[1%Z]]) = Ok st.
Proof.
  intros st.
  pose proof (node_classification "sample" demo_fmt st
                (demo_node [] ["0"] [[1%Z]])) as (Hi & _ & _ & Hl & _).
  pose proof (node_classification "sample" demo_fmt st
                (demo_node [Label] ["0"] [[1%Z]])) as (_ & Hi' & Hl' & _ & _).
  assert (declares_multiscales (demo_node [] ["0"] [[1%Z]])) as HM
    by (by apply existsb_isinstance_Multiscales).
  assert (¬ declares_label (demo_node [] ["0"] [[1%Z]])) as HnL
    by (by apply forallb_not_isinstance_Label).
  assert (declares_multiscales (demo_node [Label] ["0"] [[1%Z]])) as HM'
    by (by apply existsb_isinstance_Multiscales).
  assert (declares_label (demo_node [Label] ["0"] [[1%Z]])) as HL'
    by (by apply existsb_isinstance_Label).
  split; [apply Hi; by split|].
  split; [apply Hi'; by intros [_ ?]|].
  split; [apply Hl'; by split|].
  apply Hl. by intros [_ ?].
Defined.

(** C2 as stated fails for a top-level group that is itself a label
    image: its node declares both markers and can be read, but it is met
    in the pass over the image nodes only, which skips it, so the labels
    mapping (like the images mapping) stays empty. *)
Lemma label_at_group_is_skipped :
  let both := demo_node [Label] ["0"] [[1%Z]] in
  g_image_nodes demo_group_label_at_top = [both] ∧
  g_labels_nodes demo_group_label_at_top = None ∧
  (declares_multiscales both ∧ declares_label both) ∧
  returns (_read_multiscale both demo_fmt) ∧
  read_zarr demo_fmt [("sample", demo_group_label_at_top)] =
    Ok {| images := ∅; labels := ∅; points := ∅; polygons := ∅;
          shapes := ∅; table := None |}.
Proof.
  intros both.
  split; [done|]. split; [done|].
  split; [split; [by apply existsb_isinstance_Multiscales
                 |by apply existsb_isinstance_Label]|].
  split; [by eexists|]. done.
Defined.

(** One dataset gives a bare image; two datasets give a pyramid keyed
    "scale0" and "scale1". *)
Lemma read_multiscale_shape_witness :
  _read_multiscale (demo_node [] ["0"] [[5%Z]]) demo_fmt =
    Ok (SpatialImage {| da_data := "store/sample/0";
                        da_name := Some "sample";
                        da_dims := ["c"; "y"; "x"];
                        da_attrs_transform := 5%Z |}) ∧
  ∃ tree,
    _read_multiscale (demo_node [] ["0"; "1"] [[1]; [2]]%Z) demo_fmt =
      Ok (MultiscaleSpatialImage tree) ∧
    tree.*1 = ["scale0"; "scale1"] ∧
    (da_attrs_transform ∘ snd) <$> tree = [1; 2]%Z ∧
    (da_data ∘ snd) <$> tree = ["store/sample/0"; "store/sample/1"].
Proof.
  split.
  - apply (proj2 (proj1 (read_multiscale_shape
                           (demo_node [] ["0"] [[5%Z]]) demo_fmt ["0"]
                           eq_refl) eq_refl) [Some [5%Z]] 5%Z "0");
      exact eq_refl.
  - destruct (proj2 (proj2 (read_multiscale_shape
                              (demo_node [] ["0"; "1"] [[1]; [2]]%Z)
                              demo_fmt ["0"; "1"] eq_refl)
                       (le_n 2))
                [Some [1]; Some [2]]%Z [1; 2]%Z eq_refl eq_refl eq_refl
                (Forall_cons_2 _ _ _ eq_refl
                   (Forall_cons_2 _ _ _ eq_refl (Forall_nil_2 _))))
      as (tree & Htree & Hkeys & _).
    exists tree. split; [exact Htree|]. split; [exact Hkeys|].
    injection Htree as <-. split; reflexivity.
Defined.

(** Type code 3 is "POLYGON": with the stored name "POINT" the element
    and the whole read are rejected, with the stored name "POLYGON" the
    element is decoded. *)
Lemma polygons_name_cross_check_witness :
  (_read_polygons (demo_polygons "POINT" [1%Z]) = Raise (AssertionError "") ∧
   raises (read_zarr demo_fmt
             [("sample", demo_group_polygons (demo_polygons "POINT" [1%Z]))])) ∧
  _read_polygons (demo_polygons "POLYGON" [1%Z]) =
    Ok {| gdf_columns :=
            [("geometry",
              (POLYGON, [0; 0; 0; 1; 1; 1; 0; 0], ([0; 4], [0; 1]))%Z)];
          gdf_attrs := {["transform" := 1%Z]} |}.
Proof.
  split.
  - destruct (proj1 (polygons_name_cross_check
                       (demo_polygons "POINT" [1%Z])
                       {| geometry_type := Some 3%Z;
                          geometry_name := Some "POINT" |}
                       3%Z POLYGON "POINT"
                       eq_refl eq_refl eq_refl eq_refl))
      as (_ & Hassert & Hread); [discriminate|].
    split.
    + apply (Hassert [0; 0; 0; 1; 1; 1; 0; 0]%Z [[0; 4]; [0; 1]]%Z
                     ([0; 4], [0; 1])%Z); reflexivity.
    + apply (Hread demo_fmt _ "sample"
                   (demo_group_polygons (demo_polygons "POINT" [1%Z])));
        [left|left|reflexivity].
  - rewrite (proj2 (polygons_name_cross_check
                      (demo_polygons "POLYGON" [1%Z])
                      {| geometry_type := Some 3%Z;
                         geometry_name := Some "POLYGON" |}
                      3%Z POLYGON "POLYGON"
                      eq_refl eq_refl eq_refl eq_refl)
                   eq_refl
                   [0; 0; 0; 1; 1; 1; 0; 0]%Z [[0; 4]; [0; 1]]%Z
                   ([0; 4], [0; 1])%Z eq_refl eq_refl eq_refl).
    reflexivity.
Defined.

(** C5 on a polygons element that declares two transformation
    descriptions: [_read_polygons] returns, with the first one attached,
    and the read returns the element; the helper
    [_get_transform_from_group] rejects the same attributes. *)
Lemma read_polygons_two_transformations :
  _read_polygons (demo_polygons "POLYGON" [1; 2]%Z) =
    Ok {| gdf_columns :=
            [("geometry",
              (POLYGON, [0; 0; 0; 1; 1; 1; 0; 0], ([0; 4], [0; 1]))%Z)];
          gdf_attrs := {["transform" := 1%Z]} |} ∧
  returns (read_zarr demo_fmt
             [("sample",
               demo_group_polygons (demo_polygons "POLYGON" [1; 2]%Z))]) ∧
  _get_transform_from_group (demo_multiscales [1; 2]%Z) =
    Raise (AssertionError "Expecting only one transformation per multiscale") ∧
  _get_transform_from_group (demo_multiscales [1%Z]) = Ok 1%Z ∧
  _read_polygons (demo_polygons "POLYGON" []) = Raise IndexError.
Proof.
  split; [reflexivity|]. split; [by eexists|]. by repeat split.
Qed.

(** A table whose attribute group has "region_key" only: after the step
    the three keys exist, the two missing ones holding [None]. *)
Lemma fix_table_completes_keys_witness :
  ∃ table' attrs',
    fix_table (demo_table 3 demo_attrs_partial) = Ok table' ∧
    uns table' !! ATTRS_KEY = Some (UDict attrs') ∧
    attrs' !! "region" = Some PyNone ∧
    attrs' !! "region_key" = Some (PyScalar (SStr "library")) ∧
    attrs' !! "instance_key" = Some PyNone.
Proof.
  destruct (proj1 (fix_table_completes_keys (demo_table 3 demo_attrs_partial))
              demo_attrs_partial eq_refl)
    as (table' & attrs' & Hfix & Huns & _ & Hnone & Hkept).
  exists table', attrs'. split; [exact Hfix|]. split; [exact Huns|].
  split; [apply Hnone; [by apply elem_of_table_keys; left|reflexivity]|].
  split; [apply Hkept; [by left|reflexivity]|].
  apply Hnone; [by apply elem_of_table_keys; right; right|reflexivity].
Defined.

(** An array of two names becomes the list of the two names; a list stays
    the list it is. *)
Lemma fix_table_idempotent_witness :
  fix_attrs demo_attrs_array !! "region" =
    Some (PyList [PyScalar (SStr "a"); PyScalar (SStr "b")]) ∧
  fix_attrs (fix_attrs demo_attrs_array) = fix_attrs demo_attrs_array ∧
  fix_attrs {["region" := PyList [PyScalar (SStr "a")]]} !! "region" =
    Some (PyList [PyScalar (SStr "a")]).
Proof.
  destruct fix_table_idempotent as (_ & Hidem & _ & Harray & Hlist).
  split; [|split].
  - apply (Harray demo_attrs_array [SStr "a"; SStr "b"]). reflexivity.
  - apply Hidem.
  - apply Hlist. reflexivity.
Defined.

(** C7 as stated fails for a "region" held as a two-dimensional array: it
    becomes a list of lists, which is no list of scalars; the step is
    still idempotent there. *)
Lemma region_matrix_becomes_nested :
  fix_attrs demo_attrs_matrix !! "region" =
    Some (PyList [PyList [PyScalar (SStr "a")];
                  PyList [PyScalar (SStr "b")]]) ∧
  (∀ v, fix_attrs demo_attrs_matrix !! "region" = Some v →
        list_of_scalars v = false) ∧
  (∀ xs, fix_attrs demo_attrs_matrix !! "region" ≠
           Some (PyList (PyScalar <$> xs))) ∧
  fix_attrs (fix_attrs demo_attrs_matrix) = fix_attrs demo_attrs_matrix.
Proof.
  assert (fix_attrs demo_attrs_matrix !! "region" =
            Some (PyList [PyList [PyScalar (SStr "a")];
                          PyList [PyScalar (SStr "b")]])) as Hregion
    by reflexivity.
  split; [exact Hregion|]. split; [|split].
  - intros v Hv. rewrite Hregion in Hv. by injection Hv as <-.
  - intros xs Hxs. rewrite Hregion in Hxs.
    by destruct xs as [|x xs].
  - apply fix_attrs_idempotent.
Defined.

(** Three groups, the first two with a table: the dataset holds the table
    of the second. *)
Lemma last_table_wins_witness :
  let store :=
    [("a", demo_group_table (demo_table 1 demo_attrs_partial));
     ("b", demo_group_table (demo_table 2 demo_attrs_array));
     ("c", demo_group_polygons (demo_polygons "POLYGON" [1%Z]))] in
  ∃ sd t',
    read_zarr demo_fmt store = Ok sd ∧
    fix_table (demo_table 2 demo_attrs_array) = Ok t' ∧
    table sd = Some t' ∧ adata_rows t' = 2.
Proof.
  intros store.
  destruct (read_zarr demo_fmt store) as [sd|e] eqn:Hread;
    [|discriminate Hread].
  destruct (last_table_wins demo_fmt
              [("a", demo_group_table (demo_table 1 demo_attrs_partial))]
              "b" (demo_group_table (demo_table 2 demo_attrs_array))
              [("c", demo_group_polygons (demo_polygons "POLYGON" [1%Z]))]
              sd)
    as (t & t' & Hload & Hfix & Htable).
  - left.
  - apply Forall_cons. split; [|apply Forall_nil_2]. simpl.
    intros Hin. apply elem_of_cons in Hin as [Heq|Hin]; [discriminate Heq|].
    by apply elem_of_nil in Hin.
  - exact Hread.
  - injection Hload as <-. exists sd, t'.
    split; [reflexivity|]. split; [exact Hfix|]. split; [exact Htable|].
    injection Hfix as <-. reflexivity.
Defined.

(** A group with an image, polygons and a table but no "labels" sub-path
    is read: the dataset has its image, its polygons and its table, and no
    labels. *)
Lemma missing_labels_tolerated_witness :
  g_labels_nodes demo_group_no_labels = None ∧
  ∃ sd,
    read_zarr demo_fmt [("sample", demo_group_no_labels)] = Ok sd ∧
    labels sd !! "sample" = None ∧
    is_Some (images sd !! "sample") ∧
    is_Some (polygons sd !! "sample") ∧
    is_Some (table sd).
Proof.
  split; [reflexivity|].
  destruct (read_zarr demo_fmt [("sample", demo_group_no_labels)])
    as [sd|e] eqn:Hread; [|discriminate Hread].
  exists sd. split; [reflexivity|]. split.
  - apply (proj2 (proj2 (missing_labels_tolerated demo_fmt "sample"
                           demo_group_no_labels eq_refl))
             [("sample", demo_group_no_labels)] sd); [|exact Hread].
    intros g' Hin. apply elem_of_cons in Hin as [Heq|Hin].
    + by injection Heq as ->.
    + by apply elem_of_nil in Hin.
  - injection Hread as <-. by repeat split; eexists.
Defined.

(** Completing attributes whose "region" is an array: the rows, the other
    metadata entry and the unknown key of the attribute group are as
    before. *)
Lemma fix_table_frame_witness :
  ∃ table' attrs',
    fix_table (demo_table 3 demo_attrs_array) = Ok table' ∧
    adata_rows table' = 3 ∧
    uns table' !! "title" = Some (UVal (PyScalar (SStr "cells"))) ∧
    uns table' !! ATTRS_KEY = Some (UDict attrs') ∧
    attrs' !! "note" = Some (PyScalar (SInt 7)).
Proof.
  destruct (fix_table (demo_table 3 demo_attrs_array)) as [table'|e] eqn:Hfix;
    [|discriminate Hfix].
  destruct (fix_table_frame (demo_table 3 demo_attrs_array) table' Hfix)
    as (Hrows & Hother & _ & Hattrs).
  destruct (Hattrs demo_attrs_array eq_refl) as (attrs' & Huns & Hkeys & _).
  exists table', attrs'. split; [reflexivity|].
  split; [exact Hrows|].
  split; [rewrite Hother; [reflexivity|discriminate]|].
  split; [exact Huns|].
  rewrite Hkeys; [reflexivity|].
  intros Hin%elem_of_table_keys. by destruct Hin as [|[|]].
Defined.

(** A pyramid of two datasets has two levels with distinct keys. *)
Lemma read_multiscale_levels_witness :
  ∃ tree,
    _read_multiscale (demo_node [] ["0"; "1"] [[1]; [2]]%Z) demo_fmt =
      Ok (MultiscaleSpatialImage tree) ∧
    length tree = 2 ∧ NoDup tree.*1.
Proof.
  destruct (_read_multiscale (demo_node [] ["0"; "1"] [[1]; [2]]%Z) demo_fmt)
    as [e|err] eqn:Hread; [|discriminate Hread].
  destruct (read_multiscale_levels (demo_node [] ["0"; "1"] [[1]; [2]]%Z)
              demo_fmt ["0"; "1"] e eq_refl Hread)
    as [Hlevels Hshape].
  injection Hread as <-. eexists. split; [reflexivity|].
  split; [exact Hlevels|exact (proj2 Hshape)].
Defined.

(** The two levels hold the two arrays and the two transformations. *)
Lemma read_multiscale_contents_witness :
  ∃ e,
    _read_multiscale (demo_node [] ["0"; "1"] [[1]; [2]]%Z) demo_fmt = Ok e ∧
    da_attrs_transform <$> element_arrays e = [1; 2]%Z ∧
    da_data <$> element_arrays e = ["store/sample/0"; "store/sample/1"].
Proof.
  destruct (_read_multiscale (demo_node [] ["0"; "1"] [[1]; [2]]%Z) demo_fmt)
    as [e|err] eqn:Hread; [|discriminate Hread].
  destruct (read_multiscale_contents (demo_node [] ["0"; "1"] [[1]; [2]]%Z)
              demo_fmt ["0"; "1"]
              [Some [1]; Some [2]]%Z e eq_refl eq_refl Hread)
    as (Hts & Hdata & _).
  exists e. split; [reflexivity|]. split; [|exact Hdata].
  injection Hread as <-. reflexivity.
Defined.

(** The image of the group "a" comes from its only node. *)
Lemma read_zarr_images_labels_sound_witness :
  ∃ sd e g node,
    read_zarr demo_fmt demo_store = Ok sd ∧
    images sd !! "a" = Some e ∧
    ("a", g) ∈ demo_store ∧ node ∈ g_image_nodes g ∧
    _read_multiscale node demo_fmt = Ok e.
Proof.
  destruct (read_zarr demo_fmt demo_store) as [sd|err] eqn:Hread;
    [|discriminate Hread].
  destruct (images sd !! "a") as [e|] eqn:He;
    [|injection Hread as <-; discriminate He].
  destruct (proj1 (read_zarr_images_labels_sound demo_fmt demo_store sd Hread)
              "a" e He) as (g & node & Hg & Hnode & _ & _ & Hnode_read).
  exists sd, e, g, node. repeat split; assumption.
Defined.

(** The polygons of the group "b" come from its "polygons" child. *)
Lemma read_zarr_children_sound_witness :
  ∃ sd p g f,
    read_zarr demo_fmt demo_store = Ok sd ∧
    polygons sd !! "b" = Some p ∧
    ("b", g) ∈ demo_store ∧ "polygons" ∈ g_keys g ∧
    g_polygons g = Some f ∧ _read_polygons f = Ok p.
Proof.
  destruct (read_zarr demo_fmt demo_store) as [sd|err] eqn:Hread;
    [|discriminate Hread].
  destruct (polygons sd !! "b") as [p|] eqn:Hp;
    [|injection Hread as <-; discriminate Hp].
  destruct (proj1 (proj2 (read_zarr_children_sound demo_fmt demo_store sd
                            Hread)) "b" p Hp)
    as (g & f & Hg & Hkey & Hf & Hf_read).
  exists sd, p, g, f. repeat split; assumption.
Defined.

Lemma demo_store_NoDup : NoDup demo_store.*1.
Proof.
  apply NoDup_cons. split.
  - intros Hin. apply elem_of_cons in Hin as [Heq|Hin]; [discriminate Heq|].
    exact (proj1 (elem_of_nil _) Hin).
  - apply NoDup_cons. split; [|apply NoDup_nil_2].
    intros Hin. exact (proj1 (elem_of_nil _) Hin).
Defined.

(** The two groups read in the other order give the same mappings. *)
Lemma read_zarr_order_independent_witness :
  ∃ sd sd',
    read_zarr demo_fmt demo_store = Ok sd ∧
    read_zarr demo_fmt (reverse demo_store) = Ok sd' ∧
    images sd' = images sd ∧ polygons sd' = polygons sd.
Proof.
  destruct (read_zarr demo_fmt demo_store) as [sd|err] eqn:Hread;
    [|discriminate Hread].
  destruct (read_zarr_order_independent demo_fmt demo_store
              (reverse demo_store) sd)
    as (sd' & Hread' & Hi & _ & _ & Hy & _).
  - apply perm_swap.
  - exact demo_store_NoDup.
  - exact Hread.
  - exists sd, sd'. repeat split; assumption.
Defined.

(** The group "b" lists "polygons": the dataset has its polygons. *)
Lemma read_zarr_children_complete_witness :
  ∃ sd f p,
    read_zarr demo_fmt demo_store = Ok sd ∧
    g_polygons (demo_group_polygons (demo_polygons "POLYGON" [1%Z])) = Some f ∧
    _read_polygons f = Ok p ∧ polygons sd !! "b" = Some p.
Proof.
  destruct (read_zarr demo_fmt demo_store) as [sd|err] eqn:Hread;
    [|discriminate Hread].
  destruct (proj1 (proj2 (read_zarr_children_complete demo_fmt demo_store "b"
                            (demo_group_polygons (demo_polygons "POLYGON" [1%Z]))
                            sd demo_store_NoDup
                            (list_elem_of_further _ _ _ (list_elem_of_here _ _))
                            Hread))
              (list_elem_of_here _ _))
    as (f & p & Hf & Hp & Hsd).
  exists sd, f, p. repeat split; assumption.
Defined.

(** An image node with two datasets and one transformation aborts the
    read of a store that also holds a readable group. *)
Lemma read_zarr_node_failure_witness :
  raises (read_zarr demo_fmt
            [("a", demo_group_no_labels); ("bad", demo_group_bad_image)]).
Proof.
  apply (read_zarr_node_failure demo_fmt _ "bad" demo_group_bad_image
           (demo_node [] ["0"; "1"] [[1%Z]])).
  - right. left.
  - apply existsb_isinstance_Multiscales. reflexivity.
  - eexists. reflexivity.
  - left. split; [|left].
    apply forallb_not_isinstance_Label. reflexivity.
Defined.

(** A listed "points" child that cannot be opened aborts the read. *)
Lemma read_zarr_child_failure_witness :
  raises (read_zarr demo_fmt
            [("a", demo_group_no_labels); ("c", demo_group_missing_points)]).
Proof.
  apply (read_zarr_child_failure demo_fmt _ "c" demo_group_missing_points).
  - right. left.
  - left. split; [left|]. intros f Hf. discriminate Hf.
Defined.

(** A group that is itself a label image leaves no trace. *)
Lemma read_zarr_silent_group_witness :
  read_zarr demo_fmt (("x", demo_group_label_at_top) :: demo_store) =
  read_zarr demo_fmt demo_store.
Proof.
  apply (read_zarr_silent_group demo_fmt [] "x" demo_group_label_at_top
           demo_store).
  - apply Forall_cons. split; [|apply Forall_nil_2].
    intros [_ Hno]. apply Hno. apply existsb_isinstance_Label. reflexivity.
  - intros nodes Hnodes. discriminate Hnodes.
  - apply Forall_nil_2.
Defined.

(** The "transform" entry of the stored table is replaced, its "title"
    entry and its rows are kept. *)
Lemma read_shapes_metadata_witness :
  ∃ a,
    _read_shapes demo_shapes = Ok a ∧
    adata_rows a = 5 ∧
    uns a !! "transform" = Some (UTransform 4%Z) ∧
    uns a !! "spatialdata_attrs" =
      Some (UDict {["type" := PyScalar (SStr "shapes")]}) ∧
    uns a !! "title" = Some (UVal (PyScalar (SStr "cells"))).
Proof.
  destruct (_read_shapes demo_shapes) as [a|err] eqn:Hread;
    [|discriminate Hread].
  destruct (read_shapes_metadata demo_shapes a Hread)
    as (adata & t & attrs & Hadata & Ht & Hattrs & Hrows & Htr & Hsa & Hother).
  injection Hadata as <-. injection Ht as <-. injection Hattrs as <-.
  exists a. split; [reflexivity|]. split; [exact Hrows|].
  split; [exact Htr|]. split; [exact Hsa|].
  rewrite Hother; [reflexivity|discriminate|discriminate].
Defined.

(** The table of the dataset read from the store has the three keys. *)
Lemma read_zarr_table_completed_witness :
  ∃ sd t attrs,
    read_zarr demo_fmt demo_store = Ok sd ∧ table sd = Some t ∧
    uns t !! ATTRS_KEY = Some (UDict attrs) ∧
    is_Some (attrs !! "instance_key").
Proof.
  destruct (read_zarr demo_fmt demo_store) as [sd|err] eqn:Hread;
    [|discriminate Hread].
  destruct (table sd) as [t|] eqn:Ht;
    [|injection Hread as <-; discriminate Ht].
  destruct (read_zarr_table_completed demo_fmt demo_store sd t Hread Ht)
    as [Hnone|(attrs & Hattrs & Hkeys & _)].
  - injection Hread as <-. injection Ht as <-. discriminate Hnone.
  - exists sd, t, attrs. split; [reflexivity|]. split; [exact Ht|].
    split; [exact Hattrs|]. apply Hkeys. apply elem_of_table_keys. tauto.
Defined.

(** The group "a" has an image and no labels. *)
Lemma read_zarr_images_labels_present_witness :
  ∃ sd,
    read_zarr demo_fmt demo_store = Ok sd ∧
    is_Some (images sd !! "a") ∧ ¬ is_Some (labels sd !! "a").
Proof.
  destruct (read_zarr demo_fmt demo_store) as [sd|err] eqn:Hread;
    [|discriminate Hread].
  destruct (read_zarr_images_labels_present demo_fmt demo_store "a"
              demo_group_no_labels sd demo_store_NoDup
              (list_elem_of_here _ _) Hread) as [Himages Hlabels].
  exists sd. split; [reflexivity|]. split.
  - apply Himages. apply Exists_cons_hd. split.
    + apply existsb_isinstance_Multiscales. reflexivity.
    + apply forallb_not_isinstance_Label. reflexivity.
  - intros Hsome. apply Hlabels in Hsome as (nodes & Hnodes & _).
    discriminate Hnodes.
Defined.

(** The polygons element of type 3 is decoded as a polygon. *)
Lemma read_polygons_type_witness :
  ∃ df typ,
    _read_polygons (demo_polygons "POLYGON" [1%Z]) = Ok df ∧
    GeometryType_value typ = 3%Z ∧ GeometryType_name typ = "POLYGON".
Proof.
  destruct (_read_polygons (demo_polygons "POLYGON" [1%Z])) as [df|err]
    eqn:Hread; [|discriminate Hread].
  destruct (read_polygons_type (demo_polygons "POLYGON" [1%Z]) df
              {| geometry_type := Some 3%Z; geometry_name := Some "POLYGON" |}
              Hread eq_refl)
    as (typ & Hcode & Hname & _).
  exists df, typ. split; [reflexivity|].
  injection Hcode as Hcode. injection Hname as Hname. by split.
Defined.

End Checks.
